(** * Boost Dash race backend: the race session and the session table

    A shallow embedding of [src/server.js]: the [RaceGame] class
    (constructor, [handlePlayerAction], [getGameState]) and the socket
    handlers that own the two process-wide tables [players] and
    [activeRaces] ([join-lobby], [accept-challenge], [player-action] with
    its deferred cleanup, [disconnect]).  The handlers [challenge-player]
    and [decline-challenge] write to neither table and are not part of the
    embedding.

    Conventions of the embedding.
    - A JavaScript number is a rational ([Q]).  Every number the program
      computes from a freshly constructed race is a multiple of 1/2 of small
      magnitude (see [numbers_in_halves]), and on those IEEE doubles add,
      subtract and compare exactly, so nothing is lost for the runs of the
      program.
    - A socket id, a room id and an action are strings; [===] on them is
      [String.eqb].
    - [null] / [undefined] are [None].
    - A [Map] is an insertion-ordered association list with unique keys
      ([JsMap]).
    - A mutating method takes the object and returns the mutated object
      next to its return value.
    - [Date.now()] is an input of the handler that reads it. *)

From Stdlib Require Import QArith Qminmax Lqa ZArith Lia.
From Stdlib Require Import String Ascii List Bool DecimalString.
From Stdlib Require DecimalPos DecimalZ.
Import ListNotations.

Local Open Scope string_scope.
Local Open Scope Q_scope.

(** ** JavaScript [Map] with string keys *)

Module JsMap.
Section WithValue.

Variable V : Type.

Definition t := list (string * V).

Definition empty : t := [].

Fixpoint get (m : t) (k : string) : option V :=
  match m with
  | [] => None
  | (k', v) :: rest => if String.eqb k' k then Some v else get rest k
  end.

(** [m.set(k, v)]: an existing key keeps its place, a new key goes last. *)
Fixpoint set (m : t) (k : string) (v : V) : t :=
  match m with
  | [] => [(k, v)]
  | (k', v') :: rest =>
      if String.eqb k' k then (k', v) :: rest else (k', v') :: set rest k v
  end.

(** [m.delete(k)]: does nothing when the key is absent. *)
Fixpoint delete (m : t) (k : string) : t :=
  match m with
  | [] => []
  | (k', v) :: rest =>
      if String.eqb k' k then rest else (k', v) :: delete rest k
  end.

(** [m.values()] in iteration order. *)
Definition values (m : t) : list V := map snd m.

End WithValue.

Arguments empty {V}.
Arguments get {V} m k.
Arguments set {V} m k v.
Arguments delete {V} m k.
Arguments values {V} m.
End JsMap.

(** ** Lobby entries: the values of the [players] map *)

Module Lobby.

Record Player := mkPlayer {
  id : string;
  username : option string
}.

End Lobby.

(** ** RaceGame *)

(** [this.player1] / [this.player2]. *)
Record Racer := mkRacer {
  id : string;
  progress : Q;
  boost : Q;
  isDrifting : bool;
  username : option string
}.

Record RaceGame := mkRaceGame {
  roomId : string;
  player1 : Racer;
  player2 : Racer;
  startTime : Z;
  finished : bool;
  winner : option string
}.

Definition setProgress (p : Racer) (v : Q) : Racer :=
  mkRacer (id p) v (boost p) (isDrifting p) (username p).

Definition setBoost (p : Racer) (v : Q) : Racer :=
  mkRacer (id p) (progress p) v (isDrifting p) (username p).

Definition setIsDrifting (p : Racer) (v : bool) : Racer :=
  mkRacer (id p) (progress p) (boost p) v (username p).

Definition setPlayer1 (g : RaceGame) (p : Racer) : RaceGame :=
  mkRaceGame (roomId g) p (player2 g) (startTime g) (finished g) (winner g).

Definition setPlayer2 (g : RaceGame) (p : Racer) : RaceGame :=
  mkRaceGame (roomId g) (player1 g) p (startTime g) (finished g) (winner g).

(** [players.get(id)?.username] *)
Definition usernameOf (players : JsMap.t Lobby.Player) (pid : string)
  : option string :=
  match JsMap.get players pid with
  | Some p => Lobby.username p
  | None => None
  end.

(** [new RaceGame(roomId, player1Id, player2Id)]; [now] is what [Date.now()]
    returns inside the constructor and [players] is the global map. *)
Definition newRaceGame (players : JsMap.t Lobby.Player) (now : Z)
    (roomId player1Id player2Id : string) : RaceGame :=
  mkRaceGame roomId
    (mkRacer player1Id 0 100 false (usernameOf players player1Id))
    (mkRacer player2Id 0 100 false (usernameOf players player2Id))
    now false None.

(** The [switch (action)] statement, on the resolved [player] object. *)
Definition switchAction (action : string) (player : Racer) : Racer :=
  if String.eqb action "accelerate" then
    setProgress player (progress player + 2)
  else if String.eqb action "boost" then
    if Qle_bool 20 (boost player) then
      let player := setBoost player (boost player - 20) in
      setProgress player (progress player + 10)
    else player
  else if String.eqb action "drift-start" then
    setIsDrifting player true
  else if String.eqb action "drift-end" then
    let player := setIsDrifting player false in
    setBoost player (Qmin 100 (boost player + 15))
  else player.

(** [if (!player.isDrifting) player.boost = Math.min(100, player.boost + 0.5)] *)
Definition regenerate (player : Racer) : Racer :=
  if negb (isDrifting player) then
    setBoost player (Qmin 100 (boost player + 0.5))
  else player.

(** [const player = this.player1.id === playerId ? this.player1 : this.player2]:
    which of the two objects the method mutates. *)
Definition isFirst (this : RaceGame) (playerId : string) : bool :=
  String.eqb (id (player1 this)) playerId.

Definition resolve (this : RaceGame) (playerId : string) : Racer :=
  if isFirst this playerId then player1 this else player2 this.

(** Writing through the [player] reference. *)
Definition store (this : RaceGame) (playerId : string) (p : Racer)
  : RaceGame :=
  if isFirst this playerId then setPlayer1 this p else setPlayer2 this p.

(** [handlePlayerAction(playerId, action)]: the mutated race and the
    returned boolean. *)
Definition handlePlayerAction (this : RaceGame) (playerId action : string)
  : RaceGame * bool :=
  let player := resolve this playerId in
  let player := switchAction action player in
  let player := regenerate player in
  let this' := store this playerId player in
  if Qle_bool 1000 (progress player) && negb (finished this) then
    (mkRaceGame (roomId this') (player1 this') (player2 this')
       (startTime this') true (Some playerId), true)
  else (this', false).

(** [getGameState()] *)
Record GameState := mkGameState {
  gs_player1 : Racer;
  gs_player2 : Racer;
  gs_finished : bool;
  gs_winner : option string
}.

Definition getGameState (this : RaceGame) : GameState :=
  mkGameState (player1 this) (player2 this) (finished this) (winner this).

(** A sequence of [handlePlayerAction] calls on one race, each call a pair
    [(playerId, action)].  [history] lists, in call order, the race before
    the call, the returned boolean and the race after the call; [run] is the
    race after the last call. *)
Definition Call : Type := string * string.

Fixpoint history (this : RaceGame) (calls : list Call)
  : list (RaceGame * bool * RaceGame) :=
  match calls with
  | [] => []
  | (playerId, action) :: rest =>
      let '(this', r) := handlePlayerAction this playerId action in
      (this, r, this') :: history this' rest
  end.

Definition run (this : RaceGame) (calls : list Call) : RaceGame :=
  fold_left
    (fun this c => fst (handlePlayerAction this (fst c) (snd c))) calls this.

(** The predicates the statements below are written with. *)

Definition participates (this : RaceGame) (playerId : string) : Prop :=
  id (player1 this) = playerId \/ id (player2 this) = playerId.

Definition boostInRange (p : Racer) : Prop :=
  0 <= boost p /\ boost p <= 100.

Definition knownAction (action : string) : Prop :=
  action = "accelerate" \/ action = "boost" \/
  action = "drift-start" \/ action = "drift-end".

Definition halves (q : Q) : Prop := exists k : Z, q == k # 2.

Definition inHalves (this : RaceGame) : Prop :=
  (halves (boost (player1 this)) /\ halves (progress (player1 this))) /\
  (halves (boost (player2 this)) /\ halves (progress (player2 this))).

(** The boolean a [history] entry records. *)
Definition returned (e : RaceGame * bool * RaceGame) : bool := snd (fst e).

(** ** The server: the two tables and the socket handlers *)

Record Server := mkServer {
  players : JsMap.t Lobby.Player;
  activeRaces : JsMap.t RaceGame
}.

(** Who an [emit] goes to: [io.emit], [socket.emit], [io.to(a).to(b).emit]. *)
Inductive Target :=
| Everyone
| Sender
| To (ids : list string).

Inductive Message :=
| online_players (roster : list Lobby.Player)
| error (reason : string)
| race_start (roomId : string) (player1 player2 : Racer)
| game_update (state : GameState)
| opponent_disconnected.

(** A [setTimeout] callback of the [player-action] handler, with the
    variables its closure captures: [roomId] and [race].  The callback reads
    only the ids and usernames of [race], which no later call changes
    ([handlePlayerAction_identity]), so the timer keeps the race as it is
    when the timer is set. *)
Record Timer := mkTimer {
  delay : Z;
  timerRoomId : string;
  timerRace : RaceGame
}.

Record Outcome := mkOutcome {
  server : Server;
  emitted : list (Target * Message);
  scheduled : option Timer
}.

(** [s.slice(-4)] *)
Definition sliceLast4 (s : string) : string :=
  String.substring (String.length s - 4) 4 s.

(** [username || `Player${socket.id.slice(-4)}`]: an absent or empty
    username is falsy. *)
Definition usernameOrDefault (username : option string) (socketId : string)
  : string :=
  match username with
  | Some u => if String.eqb u "" then "Player" ++ sliceLast4 socketId else u
  | None => "Player" ++ sliceLast4 socketId
  end.

(** [socket.on('join-lobby', (username) => ...)] *)
Definition joinLobby (st : Server) (socketId : string)
    (username : option string) : Outcome :=
  let entry :=
    Lobby.mkPlayer socketId (Some (usernameOrDefault username socketId)) in
  let players := JsMap.set (players st) socketId entry in
  mkOutcome (mkServer players (activeRaces st))
    [(Everyone, online_players (JsMap.values players))] None.

(** [`race_${Date.now()}`] *)
Definition raceIdAt (now : Z) : string :=
  "race_" ++ NilZero.string_of_int (Z.to_int now).

(** [socket.on('accept-challenge', (challengerId) => ...)]; [now] is the
    clock reading of the handler and [nowCtor] the one of the constructor. *)
Definition acceptChallenge (st : Server) (now nowCtor : Z)
    (socketId challengerId : string) : Outcome :=
  match JsMap.get (players st) socketId, JsMap.get (players st) challengerId with
  | Some acceptor, Some challenger =>
      let raceId := raceIdAt now in
      let race :=
        newRaceGame (players st) nowCtor raceId
          (Lobby.id challenger) (Lobby.id acceptor) in
      let races := JsMap.set (activeRaces st) raceId race in
      let roster :=
        JsMap.delete (JsMap.delete (players st) (Lobby.id challenger))
          (Lobby.id acceptor) in
      mkOutcome (mkServer roster races)
        [ (To [Lobby.id challenger; Lobby.id acceptor],
           race_start raceId (player1 race) (player2 race));
          (Everyone, online_players (JsMap.values roster)) ]
        None
  | _, _ => mkOutcome st [(Sender, error "Player not available")] None
  end.

(** [socket.on('player-action', (data) => ...)] with
    [data = { roomId, action }]. *)
Definition playerAction (st : Server) (socketId roomId action : string)
  : Outcome :=
  match JsMap.get (activeRaces st) roomId with
  | Some race =>
      let '(race, raceFinished) := handlePlayerAction race socketId action in
      let st := mkServer (players st) (JsMap.set (activeRaces st) roomId race) in
      mkOutcome st
        [ (To [id (player1 race); id (player2 race)],
           game_update (getGameState race)) ]
        (if raceFinished then Some (mkTimer 5000 roomId race) else None)
  | None => mkOutcome st [] None
  end.

(** The body of the deferred cleanup, run when the timer fires. *)
Definition cleanup (t : Timer) (st : Server) : Outcome :=
  let roomId := timerRoomId t in
  let race := timerRace t in
  let races := JsMap.delete (activeRaces st) roomId in
  let roster :=
    JsMap.set (players st) (id (player1 race))
      (Lobby.mkPlayer (id (player1 race)) (username (player1 race))) in
  let roster :=
    JsMap.set roster (id (player2 race))
      (Lobby.mkPlayer (id (player2 race)) (username (player2 race))) in
  mkOutcome (mkServer roster races)
    [(Everyone, online_players (JsMap.values roster))] None.

(** [for (const [raceId, race] of activeRaces)]: the first race, in
    insertion order, that has [socketId] as a participant. *)
Fixpoint findRaceOf (races : JsMap.t RaceGame) (socketId : string)
  : option (string * RaceGame) :=
  match races with
  | [] => None
  | (raceId, race) :: rest =>
      if String.eqb (id (player1 race)) socketId
         || String.eqb (id (player2 race)) socketId
      then Some (raceId, race)
      else findRaceOf rest socketId
  end.

(** [socket.on('disconnect', () => ...)] *)
Definition disconnect (st : Server) (socketId : string) : Outcome :=
  let '(roster, out1) :=
    match JsMap.get (players st) socketId with
    | Some _ =>
        let roster := JsMap.delete (players st) socketId in
        (roster, [(Everyone, online_players (JsMap.values roster))])
    | None => (players st, [])
    end in
  match findRaceOf (activeRaces st) socketId with
  | Some (raceId, race) =>
      let otherPlayerId :=
        if String.eqb (id (player1 race)) socketId
        then id (player2 race) else id (player1 race) in
      mkOutcome (mkServer roster (JsMap.delete (activeRaces st) raceId))
        (out1 ++ [(To [otherPlayerId], opponent_disconnected)]) None
  | None => mkOutcome (mkServer roster (activeRaces st)) out1 None
  end.

(** ** The event loop

    Handlers run to completion one after the other.  All timers have the
    same delay, so they fire in the order they were scheduled; when one
    fires relative to the socket events is the position of [TimerFires] in
    the event sequence. *)

Inductive Event :=
| JoinLobby (socketId : string) (username : option string)
| AcceptChallenge (now nowCtor : Z) (socketId challengerId : string)
| PlayerAction (socketId roomId action : string)
| Disconnect (socketId : string)
| TimerFires.

Record World := mkWorld {
  state : Server;
  pending : list Timer;
  outbox : list (Target * Message)
}.

Definition initialWorld : World :=
  mkWorld (mkServer JsMap.empty JsMap.empty) [] [].

Definition absorb (w : World) (timers : list Timer) (o : Outcome) : World :=
  mkWorld (server o)
    (timers ++ match scheduled o with Some t => [t] | None => [] end)
    (outbox w ++ emitted o).

Definition step (w : World) (e : Event) : World :=
  match e with
  | JoinLobby socketId username =>
      absorb w (pending w) (joinLobby (state w) socketId username)
  | AcceptChallenge now nowCtor socketId challengerId =>
      absorb w (pending w)
        (acceptChallenge (state w) now nowCtor socketId challengerId)
  | PlayerAction socketId roomId action =>
      absorb w (pending w) (playerAction (state w) socketId roomId action)
  | Disconnect socketId =>
      absorb w (pending w) (disconnect (state w) socketId)
  | TimerFires =>
      match pending w with
      | t :: later => absorb w later (cleanup t (state w))
      | [] => w
      end
  end.

Definition steps (w : World) (es : list Event) : World :=
  fold_left step es w.

(** ** Concrete runs used by the examples

    Two players join as "A" and "B", then "b" accepts the challenge of "a"
    at clock reading [t0]. *)

Definition t0 : Z := 1700000000000.

Definition lobbyAB : World :=
  steps initialWorld [JoinLobby "a" (Some "A"); JoinLobby "b" (Some "B")].

Definition racingAB : World := step lobbyAB (AcceptChallenge t0 t0 "b" "a").

Definition raceAB : RaceGame :=
  newRaceGame (players (state lobbyAB)) t0 (raceIdAt t0) "a" "b".

(** One player joins and accepts a challenge naming their own id. *)
Definition racingAA : World :=
  steps initialWorld [JoinLobby "a" (Some "A"); AcceptChallenge t0 t0 "a" "a"].

Definition raceAA : RaceGame :=
  newRaceGame [("a", Lobby.mkPlayer "a" (Some "A"))] t0 (raceIdAt t0) "a" "a".

(** "a" accelerates 500 times, "b" disconnects, then the cleanup timer of
    the finished race fires. *)
Definition finishedThenLeft : World :=
  steps racingAB
    (repeat (PlayerAction "a" (raceIdAt t0) "accelerate") 500
     ++ [Disconnect "b"]).

(** Four players in the lobby; two challenges are accepted while the clock
    reads the same millisecond. *)
Definition lobbyABCD : World :=
  steps lobbyAB [JoinLobby "c" (Some "C"); JoinLobby "d" (Some "D")].

Definition twoRacesSameTick : World :=
  steps lobbyABCD
    [AcceptChallenge t0 t0 "b" "a"; AcceptChallenge t0 t0 "d" "c"].

(** A race caught with a player at the line and [finished] still false. *)
Definition raceAtLine : RaceGame :=
  mkRaceGame "race_1" (mkRacer "a" 1000 40 false (Some "A"))
    (mkRacer "b" 10 80 true (Some "B")) t0 false None.

(** ** Predicates on races, server states and runs of the event loop *)

(** A racer at or past the finish line of the win check. *)
Definition atLine (p : Racer) : Prop := 1000 <= progress p.

(** A count of calls as a number. *)
Definition ofNat (n : nat) : Q := inject_Z (Z.of_nat n).

(** The keys of a [Map] in iteration order. *)
Definition keysOf {V : Type} (m : JsMap.t V) : list string := map fst m.

(** The shape the handlers keep the two maps in: a key occurs once, a lobby
    entry sits under its own id and a race under its own room id. *)
Definition rosterOk (roster : JsMap.t Lobby.Player) : Prop :=
  NoDup (keysOf roster) /\
  Forall (fun kv => Lobby.id (snd kv) = fst kv) roster.

Definition tableOk (races : JsMap.t RaceGame) : Prop :=
  NoDup (keysOf races) /\
  Forall (fun kv => roomId (snd kv) = fst kv) races.

Definition wellFormed (st : Server) : Prop :=
  rosterOk (players st) /\ tableOk (activeRaces st).

(** The worlds the event loop can be in. *)
Definition reachable (w : World) : Prop :=
  exists es : list Event, w = steps initialWorld es.

(** A username that is there and not empty. *)
Definition named (u : option string) : Prop :=
  exists s : string, u = Some s /\ s <> "".

(** What holds of every race the server keeps. *)
Definition raceSound (g : RaceGame) : Prop :=
  (boostInRange (player1 g) /\ boostInRange (player2 g)) /\
  (finished g = true <-> atLine (player1 g) \/ atLine (player2 g)) /\
  (finished g = false <-> winner g = None).

Definition racersNamed (g : RaceGame) : Prop :=
  named (username (player1 g)) /\ named (username (player2 g)).

(** What holds of every pending cleanup timer. *)
Definition timerOk (t : Timer) : Prop :=
  roomId (timerRace t) = timerRoomId t /\
  finished (timerRace t) = true /\
  winner (timerRace t) <> None /\
  racersNamed (timerRace t).

(** What holds of every message the server sends. *)
Definition stateSound (gs : GameState) : Prop :=
  (boostInRange (gs_player1 gs) /\ boostInRange (gs_player2 gs)) /\
  (gs_finished gs = false <-> gs_winner gs = None).

Definition messageOk (m : Target * Message) : Prop :=
  match snd m with
  | online_players roster =>
      fst m = Everyone /\
      NoDup (map Lobby.id roster) /\
      Forall (fun p => named (Lobby.username p)) roster
  | error _ => fst m = Sender
  | race_start room p1 p2 =>
      fst m = To [id p1; id p2] /\
      named (username p1) /\ named (username p2)
  | game_update gs =>
      fst m = To [id (gs_player1 gs); id (gs_player2 gs)] /\ stateSound gs
  | opponent_disconnected => exists playerId : string, fst m = To [playerId]
  end.

(** The invariant of the event loop: on the two maps, on the pending
    timers and on everything sent so far. *)
Definition serverOk (st : Server) : Prop :=
  wellFormed st /\
  Forall (fun kv => named (Lobby.username (snd kv))) (players st) /\
  Forall (fun kv => raceSound (snd kv) /\ racersNamed (snd kv))
    (activeRaces st).

Definition worldOk (w : World) : Prop :=
  serverOk (state w) /\
  Forall timerOk (pending w) /\
  Forall messageOk (outbox w).

(** What a handler has to deliver for the invariant to go through. *)
Definition outcomeOk (o : Outcome) : Prop :=
  serverOk (server o) /\
  Forall messageOk (emitted o) /\
  (forall t : Timer, scheduled o = Some t -> timerOk t).

(** The [opponent-disconnected] messages of a list of emits. *)
Definition isOpponentDisconnected (m : Target * Message) : bool :=
  match snd m with
  | opponent_disconnected => true
  | _ => false
  end.

(** * Properties of [handlePlayerAction] *)

Section HandlePlayerAction.

Ltac unfold_call :=
  unfold handlePlayerAction, store, resolve, isFirst.

(** The call never touches the identity of the session or of its players. *)
Lemma handlePlayerAction_identity (this : RaceGame) (playerId action : string) :
  let this' := fst (handlePlayerAction this playerId action) in
  roomId this' = roomId this /\ startTime this' = startTime this /\
  id (player1 this') = id (player1 this) /\
  id (player2 this') = id (player2 this) /\
  username (player1 this') = username (player1 this) /\
  username (player2 this') = username (player2 this).
Proof.
  unfold_call.
  assert (K : forall p, id (regenerate (switchAction action p)) = id p /\
                        username (regenerate (switchAction action p)) = username p).
  { intro p. unfold regenerate, switchAction.
    repeat match goal with |- context [if ?c then _ else _] => destruct c end;
      simpl; auto. }
  destruct (K (player1 this)) as [K1 K1'], (K (player2 this)) as [K2 K2'].
  destruct (String.eqb (id (player1 this)) playerId);
    match goal with |- context [if ?c then _ else _] => destruct c end;
    simpl; auto 10.
Qed.

Lemma resolve_after (this : RaceGame) (playerId action : string) :
  resolve (fst (handlePlayerAction this playerId action)) playerId =
  regenerate (switchAction action (resolve this playerId)).
Proof.
  pose proof (handlePlayerAction_identity this playerId action) as H.
  cbv zeta in H. destruct H as (_ & _ & H1 & _).
  unfold resolve at 1. unfold isFirst. rewrite H1. clear H1.
  unfold_call.
  destruct (String.eqb (id (player1 this)) playerId);
    match goal with |- context [if ?c && ?d then _ else _] => destruct (c && d) end;
    reflexivity.
Qed.

(** The returned boolean and the two result fields, in closed form. *)
Lemma handlePlayerAction_finish (this : RaceGame) (playerId action : string) :
  let won :=
    Qle_bool 1000
      (progress (regenerate (switchAction action (resolve this playerId))))
    && negb (finished this) in
  snd (handlePlayerAction this playerId action) = won /\
  finished (fst (handlePlayerAction this playerId action)) = (finished this || won)%bool /\
  winner (fst (handlePlayerAction this playerId action)) =
    (if won then Some playerId else winner this).
Proof.
  unfold_call.
  destruct (String.eqb (id (player1 this)) playerId);
    match goal with |- context [Qle_bool ?a ?b] => destruct (Qle_bool a b) end;
    destruct (finished this) eqn:E; simpl; rewrite ?E; auto.
Qed.

End HandlePlayerAction.

(** ** One call: who is touched *)

Section OneCall.

Variable this : RaceGame.
Variables playerId action : string.

Let this' := fst (handlePlayerAction this playerId action).

Lemma player2_untouched :
  isFirst this playerId = true -> player2 this' = player2 this.
Proof.
  subst this'. unfold handlePlayerAction, store, resolve. intros ->.
  match goal with |- context [if ?c then _ else _] => destruct c end;
    reflexivity.
Qed.

Lemma player1_untouched :
  isFirst this playerId = false -> player1 this' = player1 this.
Proof.
  subst this'. unfold handlePlayerAction, store, resolve. intros ->.
  match goal with |- context [if ?c then _ else _] => destruct c end;
    reflexivity.
Qed.

(** C9 (as amended): a call naming player 1 leaves player 2's record as it
    was; a call naming player 2 and not player 1 leaves player 1's record as
    it was; no call changes [roomId] or [startTime]. *)
Theorem handlePlayerAction_frame :
  (id (player1 this) = playerId -> player2 this' = player2 this) /\
  (id (player2 this) = playerId -> id (player1 this) <> playerId ->
   player1 this' = player1 this) /\
  roomId this' = roomId this /\
  startTime this' = startTime this.
Proof.
  repeat split.
  - intro E. apply player2_untouched. unfold isFirst.
    now apply String.eqb_eq.
  - intros _ N. apply player1_untouched. unfold isFirst.
    now apply String.eqb_neq.
  - apply (handlePlayerAction_identity this playerId action).
  - apply (handlePlayerAction_identity this playerId action).
Qed.

End OneCall.

(** C9, the claim as stated fails: in the race a player starts by accepting
    a challenge that names their own id, both racers carry that id, and a
    call with it (so with [player2.id]) changes player 1's record. *)
Lemma self_race_call_changes_player1 :
  JsMap.get (activeRaces (state racingAA)) (raceIdAt t0) = Some raceAA /\
  id (player2 raceAA) = "a" /\
  player1 (fst (handlePlayerAction raceAA "a" "accelerate")) <> player1 raceAA.
Proof.
  repeat split; try reflexivity.
  vm_compute. discriminate.
Qed.

Lemma handlePlayerAction_frame_witness :
  id (player2 raceAB) = "b" /\ id (player1 raceAB) <> "b" /\
  player1 (fst (handlePlayerAction raceAB "b" "boost")) = player1 raceAB.
Proof.
  assert (E : id (player2 raceAB) = "b") by reflexivity.
  assert (N : id (player1 raceAB) <> "b") by (vm_compute; discriminate).
  split; [ exact E | split; [ exact N | ] ].
  exact (proj1 (proj2 (handlePlayerAction_frame raceAB "b" "boost")) E N).
Defined.

(** C1, evaluated: a third connection "c" sends an action for the race of
    "a" and "b".  Its id matches neither racer, the call falls through to
    player 2 and moves "b" forward; through the [player-action] handler the
    table then holds the changed race. *)
Theorem stranger_call_moves_player2 :
  id (player1 raceAB) <> "c" /\ id (player2 raceAB) <> "c" /\
  progress (player2 raceAB) = 0 /\
  progress (player2 (fst (handlePlayerAction raceAB "c" "accelerate"))) = 2 /\
  fst (handlePlayerAction raceAB "c" "accelerate") <> raceAB /\
  JsMap.get (activeRaces (state racingAB)) (raceIdAt t0) = Some raceAB /\
  JsMap.get
    (activeRaces
       (state (step racingAB (PlayerAction "c" (raceIdAt t0) "accelerate"))))
    (raceIdAt t0)
  = Some (fst (handlePlayerAction raceAB "c" "accelerate")).
Proof.
  repeat split; try reflexivity; vm_compute; discriminate.
Qed.

(** ** One call: what the acting player gets *)

Lemma Qle_bool_false (x y : Q) : y < x -> Qle_bool x y = false.
Proof.
  intro L. destruct (Qle_bool x y) eqn:E; [ | reflexivity ].
  apply Qle_bool_iff in E. exfalso. apply (Qlt_not_le _ _ L E).
Qed.

Lemma unknown_switch (action : string) (p : Racer) :
  ~ knownAction action -> switchAction action p = p.
Proof.
  unfold knownAction, switchAction. intro N.
  destruct (String.eqb_spec action "accelerate"); [ tauto | ].
  destruct (String.eqb_spec action "boost"); [ tauto | ].
  destruct (String.eqb_spec action "drift-start"); [ tauto | ].
  destruct (String.eqb_spec action "drift-end"); [ tauto | ].
  reflexivity.
Qed.

(** For a participant the resolved object is the racer with that id. *)
Lemma resolve_participant (this : RaceGame) (playerId : string) :
  participates this playerId -> id (resolve this playerId) = playerId.
Proof.
  unfold participates, resolve, isFirst.
  destruct (String.eqb_spec (id (player1 this)) playerId) as [E | N].
  - auto.
  - intros [E | E]; [ contradiction | exact E ].
Qed.

Lemma regenerate_fields (p : Racer) :
  progress (regenerate p) = progress p /\
  isDrifting (regenerate p) = isDrifting p /\
  id (regenerate p) = id p /\
  username (regenerate p) = username p /\
  boost (regenerate p) =
    (if isDrifting p then boost p else Qmin 100 (boost p + 0.5)).
Proof.
  unfold regenerate. destruct (isDrifting p) eqn:E; simpl; rewrite ?E; auto.
Qed.

(** C5: for a participating player, 'boost' with at least 20 boost takes
    exactly 20 boost and gives exactly 10 progress in the action branch, and
    the call ends with the passive regeneration on top of that; with less
    than 20 boost the branch changes nothing and the call only applies the
    passive regeneration.  The call is a total function: nothing is raised. *)
Theorem boost_action (this : RaceGame) (playerId : string) :
  participates this playerId ->
  let p := resolve this playerId in
  let q := switchAction "boost" p in
  let p' := resolve (fst (handlePlayerAction this playerId "boost")) playerId in
  (20 <= boost p ->
     boost q = boost p - 20 /\ progress q = progress p + 10 /\
     progress p' = progress p + 10 /\
     boost p' =
       (if isDrifting p then boost p - 20
        else Qmin 100 (boost p - 20 + 0.5))) /\
  (boost p < 20 ->
     q = p /\ progress p' = progress p /\
     boost p' =
       (if isDrifting p then boost p else Qmin 100 (boost p + 0.5))) /\
  isDrifting p' = isDrifting p /\ id p' = id p /\ username p' = username p /\
  id p = playerId.
Proof.
  intros P p q p'. subst p'. rewrite resolve_after. fold p. fold q.
  pose proof (resolve_participant this playerId P) as Pid. fold p in Pid.
  destruct (regenerate_fields q) as (Rp & Rd & Ri & Ru & Rb).
  assert (Yes : 20 <= boost p ->
                q = setProgress (setBoost p (boost p - 20)) (progress p + 10)).
  { intro L. apply Qle_bool_iff in L. subst q. unfold switchAction.
    simpl String.eqb. cbv iota. rewrite L. reflexivity. }
  assert (No : boost p < 20 -> q = p).
  { intro L. subst q. unfold switchAction. simpl String.eqb. cbv iota.
    rewrite (Qle_bool_false _ _ L). reflexivity. }
  assert (Same : isDrifting q = isDrifting p /\ id q = id p /\
                 username q = username p).
  { destruct (Qlt_le_dec (boost p) 20) as [L | L].
    - rewrite (No L). auto.
    - rewrite (Yes L). auto. }
  destruct Same as (Sd & Si & Su).
  rewrite Rp, Rd, Ri, Ru, Rb, Sd, Si, Su.
  split; [ | split; [ | auto ] ].
  - intro L. rewrite (Yes L). simpl. auto.
  - intro L. rewrite (No L). auto.
Qed.

Lemma boost_action_witness :
  participates raceAB "a" /\ 20 <= boost (resolve raceAB "a") /\
  progress (resolve (fst (handlePlayerAction raceAB "a" "boost")) "a") =
    progress (resolve raceAB "a") + 10.
Proof.
  assert (P : participates raceAB "a") by (left; reflexivity).
  assert (L : 20 <= boost (resolve raceAB "a")) by (vm_compute; discriminate).
  split; [ exact P | split; [ exact L | ] ].
  exact (proj1 (proj2 (proj2 (proj1 (boost_action raceAB "a" P) L)))).
Defined.

(** C6: for a participating player, 'drift-end' clears [isDrifting] and
    adds 15 boost capped at 100; whatever the action, the call ends by adding
    0.5 boost capped at 100 exactly when the player is not drifting at that
    point, so 'drift-start' ends with the boost it started with and
    'drift-end' ends with both the +15 and the +0.5. *)
Theorem drift_end_and_regen (this : RaceGame) (playerId action : string) :
  participates this playerId ->
  let p := resolve this playerId in
  let q := switchAction action p in
  let p' := resolve (fst (handlePlayerAction this playerId action)) playerId in
  (action = "drift-end" ->
     isDrifting q = false /\ boost q = Qmin 100 (boost p + 15) /\
     isDrifting p' = false /\
     boost p' = Qmin 100 (Qmin 100 (boost p + 15) + 0.5)) /\
  (action = "drift-start" -> isDrifting p' = true /\ boost p' = boost p) /\
  isDrifting p' = isDrifting q /\
  (isDrifting p' = false -> boost p' = Qmin 100 (boost q + 0.5)) /\
  (isDrifting p' = true -> boost p' = boost q) /\
  id p = playerId.
Proof.
  intros P p q p'. subst p'. rewrite resolve_after. fold p. fold q.
  pose proof (resolve_participant this playerId P) as Pid. fold p in Pid.
  destruct (regenerate_fields q) as (_ & Rd & _ & _ & Rb).
  rewrite Rd, Rb.
  split; [ | split; [ | split; [ | split; [ | split ] ] ] ].
  - intros ->. subst q. simpl. auto.
  - intros ->. subst q. simpl. auto.
  - reflexivity.
  - intros ->. reflexivity.
  - intros ->. reflexivity.
  - exact Pid.
Qed.

Lemma drift_end_and_regen_witness :
  participates raceAtLine "b" /\
  isDrifting (resolve raceAtLine "b") = true /\
  isDrifting
    (resolve (fst (handlePlayerAction raceAtLine "b" "drift-end")) "b") = false /\
  boost (resolve (fst (handlePlayerAction raceAtLine "b" "drift-end")) "b") =
    Qmin 100 (Qmin 100 (boost (resolve raceAtLine "b") + 15) + 0.5).
Proof.
  assert (P : participates raceAtLine "b") by (right; reflexivity).
  split; [ exact P | split; [ reflexivity | ] ].
  pose proof (proj1 (drift_end_and_regen raceAtLine "b" "drift-end" P) eq_refl)
    as (_ & _ & D & B).
  split; [ exact D | exact B ].
Defined.


(** * Sequences of calls *)

Lemma history_length (this : RaceGame) (calls : list Call) :
  length (history this calls) = length calls.
Proof.
  revert this. induction calls as [ | [playerId action] rest IH]; intro this.
  - reflexivity.
  - simpl. destruct (handlePlayerAction this playerId action) as [this' r].
    simpl. now rewrite IH.
Qed.

Lemma run_app (this : RaceGame) (c1 c2 : list Call) :
  run this (c1 ++ c2)%list = run (run this c1) c2.
Proof. unfold run. apply fold_left_app. Qed.

(** Every entry of the history is one call of the method, and [run] is the
    race after the last entry. *)
Lemma history_entries (this : RaceGame) (calls : list Call) :
  Forall
    (fun '(before, r, after) =>
       exists playerId action,
         handlePlayerAction before playerId action = (after, r))
    (history this calls).
Proof.
  revert this. induction calls as [ | [playerId action] rest IH]; intro this.
  - constructor.
  - simpl. destruct (handlePlayerAction this playerId action) as [this' r] eqn:E.
    constructor; [ eauto | apply IH ].
Qed.

Lemma last_cons_default {A : Type} (l : list A) (a d : A) :
  last (a :: l) d = last l a.
Proof.
  revert a d. induction l as [ | b l IH]; intros a d.
  - reflexivity.
  - change (last (a :: b :: l) d) with (last (b :: l) d).
    rewrite (IH b d), (IH b a). reflexivity.
Qed.

Lemma history_last (this : RaceGame) (calls : list Call) :
  run this calls = last (map snd (history this calls)) this.
Proof.
  revert this. induction calls as [ | [playerId action] rest IH]; intro this.
  - reflexivity.
  - change (run this ((playerId, action) :: rest))
      with (run (fst (handlePlayerAction this playerId action)) rest).
    simpl history.
    destruct (handlePlayerAction this playerId action) as [this' r].
    simpl fst. simpl map. rewrite last_cons_default. apply IH.
Qed.

(** ** The finish transition *)

Lemma finish_step (this : RaceGame) (playerId action : string) :
  let '(this', r) := handlePlayerAction this playerId action in
  (r = true <-> finished this = false /\ finished this' = true) /\
  (finished this = true ->
   finished this' = true /\ winner this' = winner this /\ r = false).
Proof.
  pose proof (handlePlayerAction_finish this playerId action) as F.
  cbv zeta in F.
  destruct (handlePlayerAction this playerId action) as [this' r].
  simpl in F. destruct F as (F1 & F2 & F3).
  destruct (finished this); rewrite andb_comm in F1, F2, F3; simpl in *.
  - subst r. split.
    + split; [ discriminate | intros [D _]; discriminate D ].
    + auto.
  - rewrite <- F1 in F2. rewrite F2. split; [ | discriminate ].
    split; [ auto | intros [_ E]; exact E ].
Qed.

Lemma finished_stays (this : RaceGame) (calls : list Call) :
  finished this = true ->
  finished (run this calls) = true /\ winner (run this calls) = winner this /\
  Forall (fun e => returned e = false) (history this calls).
Proof.
  revert this. induction calls as [ | [playerId action] rest IH]; intros this F.
  - simpl. auto.
  - change (run this ((playerId, action) :: rest))
      with (run (fst (handlePlayerAction this playerId action)) rest).
    simpl history.
    pose proof (finish_step this playerId action) as S.
    destruct (handlePlayerAction this playerId action) as [this' r].
    destruct S as (_ & S). destruct (S F) as (F' & W & R).
    destruct (IH this' F') as (I1 & I2 & I3). simpl fst.
    rewrite I1, I2, W. repeat split. constructor; [ exact R | exact I3 ].
Qed.

(** C3: along every sequence of calls on every race, a call returns true
    exactly when it takes [finished] from false to true; a call on a finished
    race leaves it finished with the same winner and returns false; at most
    one call of the sequence returns true; every call of the sequence has its
    entry (none is refused); and once a prefix of the sequence has finished
    the race, the rest of the sequence keeps the winner and only returns
    false. *)
Theorem finish_transition_once (this : RaceGame) (calls : list Call) :
  let h := history this calls in
  length h = length calls /\
  Forall
    (fun '(before, r, after) =>
       r = true <-> finished before = false /\ finished after = true) h /\
  Forall
    (fun '(before, r, after) =>
       finished before = true ->
       finished after = true /\ winner after = winner before /\ r = false) h /\
  (length (filter returned h) <= 1)%nat /\
  (forall c1 c2 : list Call,
     calls = (c1 ++ c2)%list -> finished (run this c1) = true ->
     finished (run this calls) = true /\
     winner (run this calls) = winner (run this c1) /\
     Forall (fun e => returned e = false) (history (run this c1) c2)).
Proof.
  cbv zeta. split; [ apply history_length | ].
  split; [ | split; [ | split ] ].
  - revert this. induction calls as [ | [playerId action] rest IH]; intro this.
    + constructor.
    + simpl. pose proof (finish_step this playerId action) as S.
      destruct (handlePlayerAction this playerId action) as [this' r].
      constructor; [ exact (proj1 S) | apply IH ].
  - revert this. induction calls as [ | [playerId action] rest IH]; intro this.
    + constructor.
    + simpl. pose proof (finish_step this playerId action) as S.
      destruct (handlePlayerAction this playerId action) as [this' r].
      constructor; [ exact (proj2 S) | apply IH ].
  - revert this. induction calls as [ | [playerId action] rest IH]; intro this.
    + simpl. lia.
    + simpl history. pose proof (finish_step this playerId action) as S.
      destruct (handlePlayerAction this playerId action) as [this' r].
      destruct S as (S & _). simpl filter. unfold returned at 1. simpl.
      destruct r.
      * destruct (proj1 S eq_refl) as (_ & F').
        destruct (finished_stays this' rest F') as (_ & _ & Q).
        assert (E : filter returned (history this' rest) = []).
        { clear - Q. induction Q as [ | e l He Hl IHl ]; simpl.
          - reflexivity.
          - rewrite He. exact IHl. }
        rewrite E. simpl. lia.
      * apply IH.
  - intros c1 c2 -> F. rewrite run_app.
    exact (finished_stays (run this c1) c2 F).
Qed.

Lemma finish_transition_once_witness :
  let c1 := repeat ("a", "accelerate") 500 in
  let c2 := [("a", "accelerate"); ("b", "accelerate")] in
  finished (run raceAB c1) = true /\
  finished (run raceAB (c1 ++ c2)%list) = true /\
  winner (run raceAB (c1 ++ c2)%list) = winner (run raceAB c1) /\
  winner (run raceAB c1) = Some "a"%string.
Proof.
  intros c1 c2.
  assert (F : finished (run raceAB c1) = true) by (vm_compute; reflexivity).
  pose proof (proj2 (proj2 (proj2 (proj2
                (finish_transition_once raceAB (c1 ++ c2)%list))))
                c1 c2 eq_refl F) as (K1 & K2 & _).
  split; [ exact F | split; [ exact K1 | split; [ exact K2 | ] ] ].
  vm_compute. reflexivity.
Defined.

(** ** The boost range *)

Lemma switchAction_in_range (action : string) (p : Racer) :
  boostInRange p -> boostInRange (switchAction action p).
Proof.
  unfold boostInRange, switchAction. intros [L U].
  destruct (String.eqb action "accelerate"); [ simpl; auto | ].
  destruct (String.eqb action "boost").
  { destruct (Qle_bool 20 (boost p)) eqn:E; [ | auto ].
    apply Qle_bool_iff in E. simpl. split; lra. }
  destruct (String.eqb action "drift-start"); [ simpl; auto | ].
  destruct (String.eqb action "drift-end"); [ | auto ].
  simpl. split.
  - apply Q.min_glb; lra.
  - apply Q.le_min_l.
Qed.

Lemma regenerate_in_range (p : Racer) :
  boostInRange p -> boostInRange (regenerate p).
Proof.
  unfold boostInRange. intros [L U].
  destruct (regenerate_fields p) as (_ & _ & _ & _ & ->).
  destruct (isDrifting p); [ auto | ].
  split.
  - apply Q.min_glb; lra.
  - apply Q.le_min_l.
Qed.

Lemma handlePlayerAction_in_range (this : RaceGame) (playerId action : string) :
  boostInRange (player1 this) /\ boostInRange (player2 this) ->
  boostInRange (player1 (fst (handlePlayerAction this playerId action))) /\
  boostInRange (player2 (fst (handlePlayerAction this playerId action))).
Proof.
  intros [R1 R2].
  pose proof (resolve_after this playerId action) as A.
  pose proof (player2_untouched this playerId action) as U2.
  pose proof (player1_untouched this playerId action) as U1.
  cbv zeta in U1, U2.
  unfold resolve in A.
  assert (I : isFirst (fst (handlePlayerAction this playerId action)) playerId
              = isFirst this playerId).
  { unfold isFirst.
    now rewrite (proj1 (proj2 (proj2
          (handlePlayerAction_identity this playerId action)))). }
  rewrite I in A.
  destruct (isFirst this playerId).
  - rewrite A, (U2 eq_refl). split; [ | exact R2 ].
    now apply regenerate_in_range, switchAction_in_range.
  - rewrite A, (U1 eq_refl). split; [ exact R1 | ].
    now apply regenerate_in_range, switchAction_in_range.
Qed.

(** C4: from construction on, whatever the calls (any player ids, any
    action strings), the boost of both players lies in [0, 100] after every
    call. *)
Theorem boost_always_in_range
    (roster : JsMap.t Lobby.Player) (now : Z)
    (room player1Id player2Id : string) (calls : list Call) :
  let this := newRaceGame roster now room player1Id player2Id in
  (boostInRange (player1 this) /\ boostInRange (player2 this)) /\
  Forall
    (fun '(_, _, after) =>
       boostInRange (player1 after) /\ boostInRange (player2 after))
    (history this calls).
Proof.
  intro this.
  assert (R0 : boostInRange (player1 this) /\ boostInRange (player2 this)).
  { unfold boostInRange. simpl. repeat split; lra. }
  split; [ exact R0 | ].
  generalize this R0. clear this R0.
  induction calls as [ | [playerId action] rest IH]; intros this R.
  - constructor.
  - simpl. pose proof (handlePlayerAction_in_range this playerId action R) as R'.
    destruct (handlePlayerAction this playerId action) as [this' r].
    constructor; [ exact R' | exact (IH this' R') ].
Qed.

(** The numbers of a run are multiples of one half. *)

Lemma halves_plus (q : Q) (k n : Z) :
  q == k # 2 -> q + inject_Z n == (k + 2 * n) # 2.
Proof.
  intros ->. unfold Qeq, Qplus, inject_Z. cbn [Qnum Qden].
  change (Z.pos (2 * 1)) with 2%Z. lia.
Qed.

Lemma halves_min_100 (q : Q) : halves q -> halves (Qmin 100 q).
Proof.
  intros [k Hk]. destruct (Q.min_dec 100 q) as [E | E].
  - exists 200%Z. rewrite E. reflexivity.
  - exists k. now rewrite E.
Qed.

Lemma halves_step (action : string) (p : Racer) :
  halves (boost p) /\ halves (progress p) ->
  halves (boost (regenerate (switchAction action p))) /\
  halves (progress (regenerate (switchAction action p))).
Proof.
  intros [[b Hb] [g Hg]].
  assert (S : halves (boost (switchAction action p)) /\
              halves (progress (switchAction action p))).
  { unfold switchAction.
    destruct (String.eqb action "accelerate").
    { simpl. split; [ now exists b | ].
      exists (g + 2 * 2)%Z. exact (halves_plus _ g 2 Hg). }
    destruct (String.eqb action "boost").
    { destruct (Qle_bool 20 (boost p)).
      - simpl. split.
        + exists (b + 2 * (-20))%Z. exact (halves_plus _ b (-20) Hb).
        + exists (g + 2 * 10)%Z. exact (halves_plus _ g 10 Hg).
      - split; [ now exists b | now exists g ]. }
    destruct (String.eqb action "drift-start").
    { simpl. split; [ now exists b | now exists g ]. }
    destruct (String.eqb action "drift-end").
    { simpl. split; [ | now exists g ].
      apply halves_min_100. exists (b + 2 * 15)%Z.
      exact (halves_plus _ b 15 Hb). }
    split; [ now exists b | now exists g ]. }
  destruct S as [[b' Hb'] Sg].
  destruct (regenerate_fields (switchAction action p)) as (-> & _ & _ & _ & ->).
  split; [ | exact Sg ].
  destruct (isDrifting (switchAction action p)); [ now exists b' | ].
  apply halves_min_100. exists (b' + 1)%Z. rewrite Hb'.
  unfold Qeq, Qplus. simpl. lia.
Qed.

Lemma numbers_in_halves
    (roster : JsMap.t Lobby.Player) (now : Z)
    (room player1Id player2Id : string) (calls : list Call) :
  inHalves (run (newRaceGame roster now room player1Id player2Id) calls).
Proof.
  set (this := newRaceGame roster now room player1Id player2Id).
  assert (H0 : inHalves this).
  { repeat split; simpl; [ exists 200%Z | exists 0%Z | exists 200%Z | exists 0%Z ];
      reflexivity. }
  generalize this H0. clear this H0.
  induction calls as [ | [playerId action] rest IH]; intros this H.
  - exact H.
  - change (run this ((playerId, action) :: rest))
      with (run (fst (handlePlayerAction this playerId action)) rest).
    apply IH. clear IH.
    pose proof (resolve_after this playerId action) as A.
    pose proof (player2_untouched this playerId action) as U2.
    pose proof (player1_untouched this playerId action) as U1.
    cbv zeta in U1, U2. unfold resolve in A.
    assert (I : isFirst (fst (handlePlayerAction this playerId action)) playerId
                = isFirst this playerId).
    { unfold isFirst.
      now rewrite (proj1 (proj2 (proj2
            (handlePlayerAction_identity this playerId action)))). }
    rewrite I in A. destruct H as [H1 H2]. unfold inHalves.
    destruct (isFirst this playerId).
    + rewrite A, (U2 eq_refl). split; [ now apply halves_step | exact H2 ].
    + rewrite A, (U1 eq_refl). split; [ exact H1 | now apply halves_step ].
Qed.

(** ** Who wins *)

(** The winner of a finished race is whoever made the finishing call. *)
Lemma winner_is_a_caller (this : RaceGame) (calls : list Call)
    (callers : list string) :
  (finished this = true ->
   exists w, winner this = Some w /\ In w callers) ->
  finished (run this calls) = true ->
  exists w, winner (run this calls) = Some w /\
            In w (callers ++ map fst calls)%list.
Proof.
  revert this callers.
  induction calls as [ | [playerId action] rest IH]; intros this callers Inv.
  - simpl. rewrite app_nil_r. exact Inv.
  - change (run this ((playerId, action) :: rest))
      with (run (fst (handlePlayerAction this playerId action)) rest).
    intro F.
    destruct (IH (fst (handlePlayerAction this playerId action))
                 (callers ++ [playerId])%list) as (w & W & I).
    + pose proof (handlePlayerAction_finish this playerId action) as H.
      cbv zeta in H. destruct H as (_ & H2 & H3). rewrite H2, H3.
      match goal with |- context [Qle_bool ?a ?b] => destruct (Qle_bool a b) end;
        destruct (finished this) eqn:E; simpl; intro K; try discriminate K.
      * destruct (Inv eq_refl) as (w & W & I). exists w.
        split; [ exact W | apply in_or_app; now left ].
      * exists playerId. split; [ reflexivity | apply in_or_app; right; now left ].
      * destruct (Inv eq_refl) as (w & W & I). exists w.
        split; [ exact W | apply in_or_app; now left ].
    + exact F.
    + exists w. split; [ exact W | ].
      simpl map. rewrite <- app_assoc in I. exact I.
Qed.

(** C2, evaluated: a third connection "c" sends 'accelerate' 500 times for
    the race of "a" and "b".  Every call falls through to player 2; the last
    one finishes the race with [winner] "c", which is the id of neither
    racer.  The same happens through the [player-action] handler. *)
Theorem stranger_becomes_winner :
  let this := run raceAB (repeat ("c", "accelerate") 500) in
  finished this = true /\ winner this = Some "c" /\
  id (player1 this) = "a" /\ id (player2 this) = "b" /\
  winner this <> Some (id (player1 this)) /\
  winner this <> Some (id (player2 this)) /\
  JsMap.get
    (activeRaces
       (state
          (steps racingAB
             (repeat (PlayerAction "c" (raceIdAt t0) "accelerate") 500))))
    (raceIdAt t0) = Some this.
Proof.
  vm_compute. repeat split; discriminate.
Qed.

(** * The session table and the roster *)

Lemma delete_absent {V : Type} (m : JsMap.t V) (k : string) :
  JsMap.get m k = None -> JsMap.delete m k = m.
Proof.
  induction m as [ | [k' v] rest IH]; simpl.
  - reflexivity.
  - destruct (String.eqb k' k); [ discriminate | ].
    intro H. now rewrite IH.
Qed.

Lemma get_set_same {V : Type} (m : JsMap.t V) (k : string) (v : V) :
  JsMap.get (JsMap.set m k v) k = Some v.
Proof.
  induction m as [ | [k' v'] rest IH]; simpl.
  - now rewrite String.eqb_refl.
  - destruct (String.eqb k' k) eqn:E; simpl; rewrite E; auto.
Qed.

Lemma get_set_other {V : Type} (m : JsMap.t V) (k k' : string) (v : V) :
  k <> k' -> JsMap.get (JsMap.set m k v) k' = JsMap.get m k'.
Proof.
  intro N. induction m as [ | [k0 v0] rest IH]; simpl.
  - apply String.eqb_neq in N. now rewrite N.
  - destruct (String.eqb k0 k) eqn:E; simpl.
    + apply String.eqb_eq in E. subst k0.
      apply String.eqb_neq in N. now rewrite N.
    + now rewrite IH.
Qed.

(** What the deferred cleanup does when its race is no longer in the table:
    the table stays as it is, and both racers are in the roster afterwards,
    whether or not they were before. *)
Lemma cleanup_after_removal (t : Timer) (st : Server) :
  JsMap.get (activeRaces st) (timerRoomId t) = None ->
  let st' := server (cleanup t st) in
  activeRaces st' = activeRaces st /\
  JsMap.get (players st') (id (player1 (timerRace t))) <> None /\
  JsMap.get (players st') (id (player2 (timerRace t))) <> None.
Proof.
  intro A. unfold cleanup. simpl. split; [ now apply delete_absent | ].
  split.
  - destruct (String.eqb_spec (id (player2 (timerRace t)))
                               (id (player1 (timerRace t)))) as [E | N].
    + rewrite <- E, get_set_same. discriminate.
    + rewrite get_set_other by exact N. rewrite get_set_same. discriminate.
  - rewrite get_set_same. discriminate.
Qed.

(** C7, evaluated: "a" finishes the race against "b", "b" disconnects
    before the five seconds are over, and the race leaves the table at once.
    When the timer then fires for that room id, the table is still empty but
    the roster is not what it was: "a" and the disconnected "b" are both
    entered in it. *)
Theorem late_cleanup_restores_roster :
  let before := finishedThenLeft in
  let after := step before TimerFires in
  map timerRoomId (pending before) = [raceIdAt t0] /\
  JsMap.get (activeRaces (state before)) (raceIdAt t0) = None /\
  activeRaces (state after) = activeRaces (state before) /\
  players (state before) = [] /\
  players (state after) =
    [("a", Lobby.mkPlayer "a" (Some "A")); ("b", Lobby.mkPlayer "b" (Some "B"))] /\
  players (state after) <> players (state before).
Proof.
  vm_compute. repeat split; discriminate.
Qed.

(** Room ids come from the clock alone. *)
Lemma acceptChallenge_room (st : Server) (now nowCtor : Z)
    (socketId challengerId : string) (acceptor challenger : Lobby.Player) :
  JsMap.get (players st) socketId = Some acceptor ->
  JsMap.get (players st) challengerId = Some challenger ->
  let st' := server (acceptChallenge st now nowCtor socketId challengerId) in
  JsMap.get (activeRaces st') (raceIdAt now) =
    Some (newRaceGame (players st) nowCtor (raceIdAt now)
            (Lobby.id challenger) (Lobby.id acceptor)) /\
  username (player1 (newRaceGame (players st) nowCtor (raceIdAt now)
                       (Lobby.id challenger) (Lobby.id acceptor))) =
    usernameOf (players st) (Lobby.id challenger) /\
  username (player2 (newRaceGame (players st) nowCtor (raceIdAt now)
                       (Lobby.id challenger) (Lobby.id acceptor))) =
    usernameOf (players st) (Lobby.id acceptor).
Proof.
  intros A C. unfold acceptChallenge. rewrite A, C. simpl.
  split; [ apply get_set_same | split; reflexivity ].
Qed.

(** C8, evaluated: "b" accepts "a" and "d" accepts "c" while [Date.now()]
    reads the same millisecond.  Both [race-start] messages carry the same
    room id, and the table keeps one race under it, the second, so the race
    of "a" and "b" cannot be reached any more. *)
Theorem same_tick_same_room :
  let w := twoRacesSameTick in
  let raceCD :=
    newRaceGame (players (state (step lobbyABCD (AcceptChallenge t0 t0 "b" "a"))))
      t0 (raceIdAt t0) "c" "d" in
  raceIdAt t0 = "race_1700000000000"%string /\
  activeRaces (state w) = [(raceIdAt t0, raceCD)] /\
  filter (fun m => match snd m with race_start _ _ _ => true | _ => false end)
    (outbox w) =
    [ (To ["a"; "b"], race_start (raceIdAt t0) (player1 raceAB) (player2 raceAB));
      (To ["c"; "d"], race_start (raceIdAt t0) (player1 raceCD) (player2 raceCD)) ] /\
  roomId raceAB = roomId raceCD /\
  username (player1 raceCD) = Some "C"%string /\
  username (player2 raceCD) = Some "D"%string.
Proof.
  vm_compute. repeat split; reflexivity.
Qed.

(** * Further properties of a race *)

(** The two records after a call, by the slot the call resolves. *)
Lemma handlePlayerAction_players (this : RaceGame) (playerId action : string) :
  let this' := fst (handlePlayerAction this playerId action) in
  isFirst this' playerId = isFirst this playerId /\
  (isFirst this playerId = true ->
   player1 this' = regenerate (switchAction action (player1 this)) /\
   player2 this' = player2 this) /\
  (isFirst this playerId = false ->
   player1 this' = player1 this /\
   player2 this' = regenerate (switchAction action (player2 this))).
Proof.
  cbv zeta.
  pose proof (resolve_after this playerId action) as A.
  pose proof (player2_untouched this playerId action) as U2.
  pose proof (player1_untouched this playerId action) as U1.
  cbv zeta in U1, U2. unfold resolve in A.
  assert (I : isFirst (fst (handlePlayerAction this playerId action)) playerId
              = isFirst this playerId).
  { unfold isFirst.
    now rewrite (proj1 (proj2 (proj2
          (handlePlayerAction_identity this playerId action)))). }
  rewrite I in A. split; [ exact I | ].
  split; intro F; rewrite F in A; auto.
Qed.

Lemma run_cons (this : RaceGame) (playerId action : string)
    (rest : list Call) :
  run this ((playerId, action) :: rest) =
  run (fst (handlePlayerAction this playerId action)) rest.
Proof. reflexivity. Qed.

Lemma switch_regen_progress (action : string) (p : Racer) :
  progress p <= progress (regenerate (switchAction action p)) /\
  progress (regenerate (switchAction action p)) <= progress p + 10.
Proof.
  destruct (regenerate_fields (switchAction action p)) as (-> & _).
  unfold switchAction.
  repeat match goal with |- context [if ?c then _ else _] => destruct c end;
    simpl; split; lra.
Qed.

(** One call moves one racer forward by between 0 and 10 and leaves the
    other where it is. *)
Lemma call_progress (this : RaceGame) (playerId action : string) :
  let this' := fst (handlePlayerAction this playerId action) in
  progress (player1 this) <= progress (player1 this') /\
  progress (player2 this) <= progress (player2 this') /\
  progress (player1 this') + progress (player2 this') <=
    progress (player1 this) + progress (player2 this) + 10.
Proof.
  cbv zeta.
  destruct (handlePlayerAction_players this playerId action) as (_ & T & F).
  destruct (isFirst this playerId).
  - destruct (T eq_refl) as [-> ->].
    destruct (switch_regen_progress action (player1 this)). repeat split; lra.
  - destruct (F eq_refl) as [-> ->].
    destruct (switch_regen_progress action (player2 this)). repeat split; lra.
Qed.

Lemma ofNat_succ (n : nat) : ofNat (S n) == ofNat n + 1.
Proof.
  unfold ofNat. rewrite Nat2Z.inj_succ. unfold Z.succ.
  rewrite inject_Z_plus. reflexivity.
Qed.

Lemma run_progress (this : RaceGame) (calls : list Call) :
  let this' := run this calls in
  progress (player1 this) <= progress (player1 this') /\
  progress (player2 this) <= progress (player2 this') /\
  progress (player1 this') + progress (player2 this') <=
    progress (player1 this) + progress (player2 this)
    + 10 * ofNat (length calls).
Proof.
  revert this. induction calls as [ | [playerId action] rest IH]; intro this.
  - cbv zeta. change (run this []) with this.
    change (ofNat (length (@nil Call))) with 0. repeat split; lra.
  - cbv zeta. rewrite run_cons.
    pose proof (call_progress this playerId action) as (C1 & C2 & C3).
    pose proof (IH (fst (handlePlayerAction this playerId action)))
      as (I1 & I2 & I3).
    change (length ((playerId, action) :: rest)) with (S (length rest)).
    rewrite ofNat_succ. repeat split; lra.
Qed.

(** X1: along every sequence of calls on every race, no racer's progress
    ever goes down, and the two racers together gain at most 10 progress per
    call. *)
Theorem progress_bounds (this : RaceGame) (calls : list Call) :
  let this' := run this calls in
  progress (player1 this) <= progress (player1 this') /\
  progress (player2 this) <= progress (player2 this') /\
  progress (player1 this') + progress (player2 this') <=
    progress (player1 this) + progress (player2 this)
    + 10 * ofNat (length calls).
Proof. exact (run_progress this calls). Qed.

(** ** Finished means somebody is at the line *)

Lemma line_step (this : RaceGame) (playerId action : string) :
  (finished this = true <-> atLine (player1 this) \/ atLine (player2 this)) ->
  let this' := fst (handlePlayerAction this playerId action) in
  finished this' = true <-> atLine (player1 this') \/ atLine (player2 this').
Proof.
  intro Inv. cbv zeta.
  destruct (handlePlayerAction_players this playerId action) as (_ & T & F).
  destruct (handlePlayerAction_finish this playerId action) as (_ & Fin & _).
  rewrite Fin. clear Fin. unfold resolve, atLine in *.
  destruct (isFirst this playerId).
  - destruct (T eq_refl) as [-> ->].
    destruct (switch_regen_progress action (player1 this)) as [M _].
    destruct (finished this); simpl.
    + split; [ intros _ | reflexivity ].
      destruct (proj1 Inv eq_refl) as [L | L]; [ left; lra | right; exact L ].
    + rewrite andb_true_r. rewrite Qle_bool_iff. split; [ auto | ].
      intros [L | L]; [ exact L | ].
      discriminate (proj2 Inv (or_intror L)).
  - destruct (F eq_refl) as [-> ->].
    destruct (switch_regen_progress action (player2 this)) as [M _].
    destruct (finished this); simpl.
    + split; [ intros _ | reflexivity ].
      destruct (proj1 Inv eq_refl) as [L | L]; [ left; exact L | right; lra ].
    + rewrite andb_true_r. rewrite Qle_bool_iff. split; [ auto | ].
      intros [L | L]; [ | exact L ].
      discriminate (proj2 Inv (or_introl L)).
Qed.

Lemma line_run (this : RaceGame) (calls : list Call) :
  (finished this = true <-> atLine (player1 this) \/ atLine (player2 this)) ->
  finished (run this calls) = true <->
  atLine (player1 (run this calls)) \/ atLine (player2 (run this calls)).
Proof.
  revert this. induction calls as [ | [playerId action] rest IH]; intros this Inv.
  - exact Inv.
  - rewrite run_cons. apply IH. now apply line_step.
Qed.

Lemma fresh_line
    (roster : JsMap.t Lobby.Player) (now : Z)
    (room player1Id player2Id : string) (calls : list Call) :
  let this := run (newRaceGame roster now room player1Id player2Id) calls in
  finished this = true <-> atLine (player1 this) \/ atLine (player2 this).
Proof.
  apply line_run. unfold atLine. simpl. split; [ discriminate | ].
  intros [L | L]; exfalso; revert L; apply Qlt_not_le; reflexivity.
Qed.

(** X2: from construction on, after every sequence of calls, the race is
    finished exactly when one of the two racers has progress 1000 or more:
    no racer is ever past the line of an unfinished race. *)
Theorem finished_iff_at_line
    (roster : JsMap.t Lobby.Player) (now : Z)
    (room player1Id player2Id : string) (calls : list Call) :
  let this := run (newRaceGame roster now room player1Id player2Id) calls in
  finished this = true <-> atLine (player1 this) \/ atLine (player2 this).
Proof. exact (fresh_line roster now room player1Id player2Id calls). Qed.

(** ** The winner field *)

Lemma winner_none_step (this : RaceGame) (playerId action : string) :
  (finished this = false <-> winner this = None) ->
  let this' := fst (handlePlayerAction this playerId action) in
  finished this' = false <-> winner this' = None.
Proof.
  intro Inv. cbv zeta.
  destruct (handlePlayerAction_finish this playerId action) as (_ & -> & ->).
  match goal with |- context [Qle_bool ?a ?b] => destruct (Qle_bool a b) end;
    destruct (finished this); simpl.
  - exact Inv.
  - split; discriminate.
  - exact Inv.
  - exact Inv.
Qed.

Lemma winner_none_run (this : RaceGame) (calls : list Call) :
  (finished this = false <-> winner this = None) ->
  finished (run this calls) = false <-> winner (run this calls) = None.
Proof.
  revert this. induction calls as [ | [playerId action] rest IH]; intros this Inv.
  - exact Inv.
  - rewrite run_cons. apply IH. now apply winner_none_step.
Qed.

Lemma fresh_winner
    (roster : JsMap.t Lobby.Player) (now : Z)
    (room player1Id player2Id : string) (calls : list Call) :
  let this := run (newRaceGame roster now room player1Id player2Id) calls in
  (finished this = false <-> winner this = None) /\
  (finished this = true ->
   exists w : string, winner this = Some w /\ In w (map fst calls)).
Proof.
  cbv zeta. split.
  - apply winner_none_run. simpl. tauto.
  - intro F.
    exact (winner_is_a_caller
             (newRaceGame roster now room player1Id player2Id) calls []
             (fun K : false = true => False_ind _ (diff_false_true K)) F).
Qed.

(** X3: from construction on, [winner] is null exactly while the race is
    unfinished, and the winner of a finished race is the [playerId] argument
    of one of the calls that were made. *)
Theorem winner_from_construction
    (roster : JsMap.t Lobby.Player) (now : Z)
    (room player1Id player2Id : string) (calls : list Call) :
  let this := run (newRaceGame roster now room player1Id player2Id) calls in
  (finished this = false <-> winner this = None) /\
  (finished this = true ->
   exists w : string, winner this = Some w /\ In w (map fst calls)).
Proof. exact (fresh_winner roster now room player1Id player2Id calls). Qed.

(** X4: when an unfinished race is finished by a sequence of calls that all
    come from its two racers, the winner is [player1.id] or [player2.id]. *)
Theorem racers_only_winner (this : RaceGame) (calls : list Call) :
  finished this = false ->
  Forall (fun c => participates this (fst c)) calls ->
  finished (run this calls) = true ->
  winner (run this calls) = Some (id (player1 (run this calls))) \/
  winner (run this calls) = Some (id (player2 (run this calls))).
Proof.
  intros NF P F.
  destruct (winner_is_a_caller this calls []) as (w & W & I).
  - rewrite NF. discriminate.
  - exact F.
  - simpl in I. apply in_map_iff in I. destruct I as (c & <- & Ic).
    rewrite Forall_forall in P. specialize (P c Ic).
    assert (Ids : id (player1 (run this calls)) = id (player1 this) /\
                  id (player2 (run this calls)) = id (player2 this)).
    { clear. revert this.
      induction calls as [ | [playerId action] rest IH]; intro this.
      - auto.
      - rewrite run_cons.
        destruct (IH (fst (handlePlayerAction this playerId action))) as [-> ->].
        destruct (handlePlayerAction_identity this playerId action)
          as (_ & _ & -> & -> & _). auto. }
    destruct Ids as [-> ->]. rewrite W.
    destruct P as [<- | <-]; auto.
Qed.

Lemma racers_only_winner_witness :
  finished raceAB = false /\
  finished (run raceAB (repeat ("b", "accelerate") 500)) = true /\
  (winner (run raceAB (repeat ("b", "accelerate") 500)) =
     Some (id (player1 (run raceAB (repeat ("b", "accelerate") 500)))) \/
   winner (run raceAB (repeat ("b", "accelerate") 500)) =
     Some (id (player2 (run raceAB (repeat ("b", "accelerate") 500))))).
Proof.
  assert (NF : finished raceAB = false) by reflexivity.
  assert (F : finished (run raceAB (repeat ("b", "accelerate") 500)) = true)
    by (vm_compute; reflexivity).
  assert (P : Forall (fun c : Call => participates raceAB (fst c))
                (repeat ("b", "accelerate") 500)).
  { apply Forall_forall. intros c Ic. apply repeat_spec in Ic. subst c.
    right. reflexivity. }
  split; [ exact NF | split; [ exact F | ] ].
  exact (racers_only_winner raceAB (repeat ("b", "accelerate") 500) NF P F).
Defined.

(** ** Accelerating *)

Lemma run_ids (this : RaceGame) (calls : list Call) :
  id (player1 (run this calls)) = id (player1 this) /\
  id (player2 (run this calls)) = id (player2 this).
Proof.
  revert this. induction calls as [ | [playerId action] rest IH]; intro this.
  - auto.
  - rewrite run_cons.
    destruct (IH (fst (handlePlayerAction this playerId action))) as [-> ->].
    destruct (handlePlayerAction_identity this playerId action)
      as (_ & _ & -> & -> & _). auto.
Qed.

Lemma run_isFirst (this : RaceGame) (calls : list Call) (playerId : string) :
  isFirst (run this calls) playerId = isFirst this playerId.
Proof.
  unfold isFirst. now rewrite (proj1 (run_ids this calls)).
Qed.

Lemma accelerate_run (this : RaceGame) (playerId : string) (n : nat) :
  let this' := run this (repeat (playerId, "accelerate") n) in
  progress (resolve this' playerId) ==
    progress (resolve this playerId) + 2 * ofNat n /\
  isDrifting (resolve this' playerId) = isDrifting (resolve this playerId) /\
  (if isFirst this playerId then player2 this' = player2 this
   else player1 this' = player1 this).
Proof.
  revert this. induction n as [ | n IH]; intro this.
  - cbv zeta. change (run this (repeat (playerId, "accelerate") 0)) with this.
    change (ofNat 0) with 0. split; [ lra | split; [ reflexivity | ] ].
    destruct (isFirst this playerId); reflexivity.
  - cbv zeta. change (repeat (playerId, "accelerate") (S n))
      with ((playerId, "accelerate") :: repeat (playerId, "accelerate") n).
    rewrite run_cons.
    destruct (IH (fst (handlePlayerAction this playerId "accelerate")))
      as (P & D & O).
    rewrite resolve_after in P, D.
    destruct (handlePlayerAction_players this playerId "accelerate")
      as (I & T & F).
    rewrite I in O.
    destruct (regenerate_fields (switchAction "accelerate" (resolve this playerId)))
      as (Rp & Rd & _).
    rewrite Rp in P. rewrite Rd in D.
    change (progress (switchAction "accelerate" (resolve this playerId)))
      with (progress (resolve this playerId) + 2) in P.
    change (isDrifting (switchAction "accelerate" (resolve this playerId)))
      with (isDrifting (resolve this playerId)) in D.
    split; [ rewrite P, ofNat_succ; ring | split; [ exact D | ] ].
    destruct (isFirst this playerId).
    + rewrite O. exact (proj2 (T eq_refl)).
    + rewrite O. exact (proj1 (F eq_refl)).
Qed.

(** X5: [n] 'accelerate' calls in a row with the same [playerId] add
    exactly [2 * n] to the progress of the racer the calls resolve to, leave
    that racer's drift flag alone and do not touch the other racer. *)
Theorem accelerate_adds_two (this : RaceGame) (playerId : string) (n : nat) :
  let this' := run this (repeat (playerId, "accelerate") n) in
  progress (resolve this' playerId) ==
    progress (resolve this playerId) + 2 * ofNat n /\
  isDrifting (resolve this' playerId) = isDrifting (resolve this playerId) /\
  (if isFirst this playerId then player2 this' = player2 this
   else player1 this' = player1 this).
Proof. exact (accelerate_run this playerId n). Qed.

Lemma at_line_after (n : nat) (q : Q) :
  q == 0 + 2 * ofNat n -> (1000 <= q <-> (500 <= n)%nat).
Proof.
  intros ->. unfold ofNat. split.
  - intro L. apply Nat2Z.inj_le. rewrite Zle_Qle.
    change (inject_Z (Z.of_nat 500)) with 500. lra.
  - intro L. apply Nat2Z.inj_le in L. rewrite Zle_Qle in L.
    change (inject_Z (Z.of_nat 500)) with 500 in L. lra.
Qed.

(** X6: a freshly constructed race on which one [playerId] (racer or not)
    only accelerates is finished exactly from the 500th call on, and the
    winner is then that [playerId]. *)
Theorem fresh_race_finishes_at_500
    (roster : JsMap.t Lobby.Player) (now : Z)
    (room player1Id player2Id playerId : string) (n : nat) :
  let this :=
    run (newRaceGame roster now room player1Id player2Id)
      (repeat (playerId, "accelerate") n) in
  finished this = (500 <=? n)%nat /\
  winner this = (if (500 <=? n)%nat then Some playerId else None).
Proof.
  set (fresh := newRaceGame roster now room player1Id player2Id).
  cbv zeta.
  pose proof (fresh_line roster now room player1Id player2Id
                (repeat (playerId, "accelerate") n)) as L.
  pose proof (fresh_winner roster now room player1Id player2Id
                (repeat (playerId, "accelerate") n)) as (W0 & W1).
  cbv zeta in L, W0, W1. fold fresh in L, W0, W1.
  destruct (accelerate_run fresh playerId n) as (P & _ & O).
  unfold resolve in P. rewrite run_isFirst in P.
  assert (Z0 : forall p : Racer, progress p = 0 -> ~ atLine p).
  { intros p E. unfold atLine. rewrite E. apply Qlt_not_le. reflexivity. }
  assert (F : finished (run fresh (repeat (playerId, "accelerate") n)) = true
              <-> (500 <= n)%nat).
  { rewrite L. unfold atLine at 1 2.
    destruct (isFirst fresh playerId).
    - rewrite O. rewrite (at_line_after n _ P). split; [ | auto ].
      intros [K | K]; [ exact K | ].
      now destruct (Z0 (player2 fresh) eq_refl).
    - rewrite O. rewrite (at_line_after n _ P). split; [ | auto ].
      intros [K | K]; [ | exact K ].
      now destruct (Z0 (player1 fresh) eq_refl). }
  destruct (Nat.leb_spec 500 n) as [Ge | Lt].
  - pose proof (proj2 F Ge) as Fin. split; [ exact Fin | ].
    destruct (W1 Fin) as (w & -> & I).
    apply in_map_iff in I. destruct I as (c & <- & Ic).
    apply repeat_spec in Ic. now subst c.
  - assert (Fin : finished (run fresh (repeat (playerId, "accelerate") n)) = false).
    { destruct (finished (run fresh (repeat (playerId, "accelerate") n)));
        [ | reflexivity ].
      pose proof (proj1 F eq_refl). lia. }
    split; [ exact Fin | exact (proj1 W0 Fin) ].
Qed.

(** X7: no sequence of fewer than 100 calls finishes a freshly constructed
    race. *)
Theorem finish_needs_100_calls
    (roster : JsMap.t Lobby.Player) (now : Z)
    (room player1Id player2Id : string) (calls : list Call) :
  finished (run (newRaceGame roster now room player1Id player2Id) calls) = true ->
  (100 <= length calls)%nat.
Proof.
  set (fresh := newRaceGame roster now room player1Id player2Id). intro F.
  apply (fresh_line roster now room player1Id player2Id calls) in F.
  fold fresh in F. unfold atLine in F.
  destruct (run_progress fresh calls) as (B1 & B2 & B3).
  change (progress (player1 fresh)) with 0 in B1, B3.
  change (progress (player2 fresh)) with 0 in B2, B3.
  apply Nat2Z.inj_le. rewrite Zle_Qle. fold (ofNat (length calls)).
  change (inject_Z (Z.of_nat 100)) with 100.
  destruct F as [F | F]; lra.
Qed.

Lemma finish_needs_100_calls_witness :
  finished (run raceAB (repeat ("a", "accelerate") 500)) = true /\
  (100 <= length (repeat ("a", "accelerate") 500))%nat.
Proof.
  assert (F : finished (run raceAB (repeat ("a", "accelerate") 500)) = true)
    by (vm_compute; reflexivity).
  split; [ exact F | ].
  exact (finish_needs_100_calls (players (state lobbyAB)) t0 (raceIdAt t0)
           "a" "b" (repeat ("a", "accelerate") 500) F).
Defined.

(** ** Calls that do not name player 1 *)

(** X8: in a race of two different ids, a call whose [playerId] is not
    [player1.id] does to the race what the same call with [player2.id] does:
    player 1 is left alone, player 2 ends in the same record, [finished] and
    the returned flag are the same; only the winner written on a finishing
    call is the [playerId] that was passed. *)
Theorem not_player1_acts_as_player2 (this : RaceGame) (playerId action : string) :
  id (player1 this) <> playerId ->
  id (player1 this) <> id (player2 this) ->
  let r := handlePlayerAction this playerId action in
  let r2 := handlePlayerAction this (id (player2 this)) action in
  player1 (fst r) = player1 this /\
  player1 (fst r2) = player1 this /\
  player2 (fst r) = player2 (fst r2) /\
  finished (fst r) = finished (fst r2) /\
  snd r = snd r2 /\
  winner (fst r) = (if snd r then Some playerId else winner this) /\
  winner (fst r2) = (if snd r then Some (id (player2 this)) else winner this).
Proof.
  intros N1 N2. cbv zeta.
  apply String.eqb_neq in N1, N2.
  destruct (handlePlayerAction_players this playerId action) as (_ & _ & F).
  destruct (handlePlayerAction_players this (id (player2 this)) action)
    as (_ & _ & F2).
  destruct (handlePlayerAction_finish this playerId action) as (R & Fin & W).
  destruct (handlePlayerAction_finish this (id (player2 this)) action)
    as (R2 & Fin2 & W2).
  unfold resolve, isFirst in *. rewrite N1 in *. rewrite N2 in *.
  destruct (F eq_refl) as [-> ->]. destruct (F2 eq_refl) as [-> ->].
  rewrite R, R2, Fin, Fin2, W, W2. repeat split; reflexivity.
Qed.

Lemma not_player1_acts_as_player2_witness :
  id (player1 raceAB) <> "c" /\ id (player1 raceAB) <> id (player2 raceAB) /\
  player2 (fst (handlePlayerAction raceAB "c" "boost")) =
  player2 (fst (handlePlayerAction raceAB (id (player2 raceAB)) "boost")).
Proof.
  assert (N1 : id (player1 raceAB) <> "c") by (vm_compute; discriminate).
  assert (N2 : id (player1 raceAB) <> id (player2 raceAB))
    by (vm_compute; discriminate).
  split; [ exact N1 | split; [ exact N2 | ] ].
  exact (proj1 (proj2 (proj2
           (not_player1_acts_as_player2 raceAB "c" "boost" N1 N2)))).
Defined.

(** * The two maps *)

Section MapFacts.

Context {V : Type}.
Implicit Types (m : JsMap.t V) (k : string) (v : V).

Lemma get_none_iff m k : JsMap.get m k = None <-> ~ In k (keysOf m).
Proof.
  induction m as [ | [k' v'] rest IH]; simpl.
  - tauto.
  - destruct (String.eqb_spec k' k) as [E | N].
    + split; [ discriminate | intro H; exfalso; apply H; now left ].
    + rewrite IH. tauto.
Qed.

Lemma get_In m k v : JsMap.get m k = Some v -> In (k, v) m.
Proof.
  induction m as [ | [k' v'] rest IH]; simpl.
  - discriminate.
  - destruct (String.eqb_spec k' k) as [E | N].
    + intros [= ->]. left. now subst.
    + intro H. right. now apply IH.
Qed.

Lemma keys_set_present m k v :
  In k (keysOf m) -> keysOf (JsMap.set m k v) = keysOf m.
Proof.
  induction m as [ | [k' v'] rest IH]; simpl.
  - tauto.
  - destruct (String.eqb_spec k' k) as [E | N]; simpl.
    + reflexivity.
    + intros [E | I]; [ contradiction | ]. now rewrite IH.
Qed.

Lemma keys_set_absent m k v :
  ~ In k (keysOf m) -> keysOf (JsMap.set m k v) = (keysOf m ++ [k])%list.
Proof.
  induction m as [ | [k' v'] rest IH]; simpl.
  - reflexivity.
  - destruct (String.eqb_spec k' k) as [E | N]; simpl.
    + intro H. exfalso. apply H. now left.
    + intro H. rewrite IH; [ reflexivity | tauto ].
Qed.

Lemma NoDup_set m k v : NoDup (keysOf m) -> NoDup (keysOf (JsMap.set m k v)).
Proof.
  intro D. destruct (in_dec string_dec k (keysOf m)) as [I | NI].
  - now rewrite keys_set_present.
  - rewrite keys_set_absent by exact NI.
    apply NoDup_app; [ exact D | repeat constructor; simpl; tauto | ].
    intros x Ix [<- | []]. contradiction.
Qed.

Lemma In_set m k v (kv : string * V) :
  In kv (JsMap.set m k v) -> kv = (k, v) \/ In kv m.
Proof.
  induction m as [ | [k' v'] rest IH]; simpl.
  - intros [E | []]. left. now symmetry.
  - destruct (String.eqb_spec k' k) as [E | N]; simpl.
    + subst k'. intros [E | I]; [ left; now symmetry | right; now right ].
    + intros [E | I]; [ tauto | ]. destruct (IH I); tauto.
Qed.

Lemma Forall_set (P : string * V -> Prop) m k v :
  Forall P m -> P (k, v) -> Forall P (JsMap.set m k v).
Proof.
  intros A B. apply Forall_forall. intros kv I.
  destruct (In_set m k v kv I) as [-> | I']; [ exact B | ].
  rewrite Forall_forall in A. now apply A.
Qed.

Lemma In_delete m k (kv : string * V) : In kv (JsMap.delete m k) -> In kv m.
Proof.
  induction m as [ | [k' v'] rest IH]; simpl.
  - tauto.
  - destruct (String.eqb k' k); simpl; [ tauto | ].
    intros [E | I]; [ tauto | right; now apply IH ].
Qed.

Lemma Forall_delete (P : string * V -> Prop) m k :
  Forall P m -> Forall P (JsMap.delete m k).
Proof.
  intro A. apply Forall_forall. intros kv I.
  rewrite Forall_forall in A. apply A. now apply In_delete with k.
Qed.

Lemma keys_delete_in m k (x : string) :
  In x (keysOf (JsMap.delete m k)) -> In x (keysOf m).
Proof.
  unfold keysOf. rewrite !in_map_iff. intros (kv & E & I).
  exists kv. split; [ exact E | now apply In_delete with k ].
Qed.

Lemma NoDup_delete m k : NoDup (keysOf m) -> NoDup (keysOf (JsMap.delete m k)).
Proof.
  induction m as [ | [k' v'] rest IH]; simpl.
  - auto.
  - intro D. inversion D as [ | ? ? NI D' ]; subst.
    destruct (String.eqb k' k); simpl; [ exact D' | ].
    constructor; [ | now apply IH ].
    intro I. apply NI. now apply keys_delete_in with k.
Qed.

Lemma get_delete_same m k :
  NoDup (keysOf m) -> JsMap.get (JsMap.delete m k) k = None.
Proof.
  induction m as [ | [k' v'] rest IH]; simpl.
  - reflexivity.
  - intro D. inversion D as [ | ? ? NI D' ]; subst.
    destruct (String.eqb_spec k' k) as [E | N]; simpl.
    + subst k'. now apply get_none_iff.
    + apply String.eqb_neq in N. rewrite N. now apply IH.
Qed.

Lemma get_delete_other m k k' :
  k <> k' -> JsMap.get (JsMap.delete m k) k' = JsMap.get m k'.
Proof.
  intro N. induction m as [ | [k0 v0] rest IH]; simpl.
  - reflexivity.
  - destruct (String.eqb_spec k0 k) as [E | N0]; simpl.
    + subst k0. apply String.eqb_neq in N. now rewrite N.
    + now rewrite IH.
Qed.

Lemma keys_length_delete m k :
  (length (JsMap.delete m k) <= length m)%nat.
Proof.
  induction m as [ | [k' v'] rest IH]; simpl.
  - lia.
  - destruct (String.eqb k' k); simpl; lia.
Qed.

End MapFacts.

(** * The handlers, one by one *)

(** ** join-lobby *)

Lemma substring_all (s : string) (m : nat) :
  (String.length s <= m)%nat -> String.substring 0 m s = s.
Proof.
  revert m. induction s as [ | c s IH]; intros m L.
  - destruct m; reflexivity.
  - destruct m as [ | m]; simpl in L; [ lia | ].
    simpl. rewrite IH by lia. reflexivity.
Qed.

Lemma substring_suffix (s : string) (n m : nat) :
  (n <= String.length s)%nat -> (String.length s <= n + m)%nat ->
  exists prefix : string,
    s = prefix ++ String.substring n m s /\
    String.length (String.substring n m s) = (String.length s - n)%nat.
Proof.
  revert n. induction s as [ | c s IH]; intros n Ln Lm.
  - exists "". destruct n, m; simpl; auto.
  - destruct n as [ | n].
    + exists "". rewrite substring_all by lia. simpl. auto.
    + simpl in Ln, Lm. destruct (IH n) as (prefix & E & Len); try lia.
      exists (String c prefix). simpl. split; [ now rewrite <- E | exact Len ].
Qed.

(** X9: the name [join-lobby] stores is never empty: it is the name sent
    when that is a non-empty string, and otherwise "Player" followed by the
    last four characters of the socket id (the whole id when it is
    shorter). *)
Theorem usernameOrDefault_spec (username : option string) (socketId : string) :
  usernameOrDefault username socketId <> "" /\
  (forall u : string,
     username = Some u -> u <> "" -> usernameOrDefault username socketId = u) /\
  (username = None \/ username = Some "" ->
   exists prefix suffix : string,
     usernameOrDefault username socketId = "Player" ++ suffix /\
     socketId = prefix ++ suffix /\
     String.length suffix = Nat.min 4 (String.length socketId)).
Proof.
  assert (D : exists prefix suffix : string,
             "Player" ++ sliceLast4 socketId = "Player" ++ suffix /\
             socketId = prefix ++ suffix /\
             String.length suffix = Nat.min 4 (String.length socketId)).
  { unfold sliceLast4.
    destruct (substring_suffix socketId (String.length socketId - 4) 4)
      as (prefix & E & Len); try lia.
    exists prefix, (String.substring (String.length socketId - 4) 4 socketId).
    split; [ reflexivity | split; [ exact E | lia ] ]. }
  unfold usernameOrDefault. split; [ | split ].
  - destruct username as [u | ]; [ | discriminate ].
    destruct (String.eqb_spec u ""); [ discriminate | assumption ].
  - intros u -> N. apply String.eqb_neq in N. now rewrite N.
  - intros [-> | ->]; exact D.
Qed.

(** X10: after [join-lobby] the socket id maps to its entry, every other
    entry is as before, a socket that was already listed keeps its place in
    the roster and a new one goes last, and the races are not touched (also
    when the socket is in one). *)
Theorem joinLobby_registers (st : Server) (socketId : string)
    (username : option string) :
  let o := joinLobby st socketId username in
  JsMap.get (players (server o)) socketId =
    Some (Lobby.mkPlayer socketId
            (Some (usernameOrDefault username socketId))) /\
  (forall other : string,
     other <> socketId ->
     JsMap.get (players (server o)) other = JsMap.get (players st) other) /\
  (In socketId (keysOf (players st)) ->
   keysOf (players (server o)) = keysOf (players st)) /\
  (~ In socketId (keysOf (players st)) ->
   keysOf (players (server o)) = (keysOf (players st) ++ [socketId])%list) /\
  activeRaces (server o) = activeRaces st /\
  emitted o = [(Everyone, online_players (JsMap.values (players (server o))))].
Proof.
  cbv zeta. unfold joinLobby. simpl.
  split; [ apply get_set_same | ].
  split; [ intros other N; apply get_set_other; congruence | ].
  split; [ apply keys_set_present | ].
  split; [ apply keys_set_absent | ].
  split; reflexivity.
Qed.

(** ** accept-challenge *)

Lemma to_int_printable (z : Z) :
  Z.to_int z <> Decimal.Pos Decimal.Nil /\ Z.to_int z <> Decimal.Neg Decimal.Nil.
Proof.
  destruct z as [ | p | p]; simpl; split; try discriminate;
    intros [= E]; exact (DecimalPos.Unsigned.to_uint_nonnil p E).
Qed.

Lemma raceIdAt_inj (a b : Z) : raceIdAt a = raceIdAt b -> a = b.
Proof.
  unfold raceIdAt. simpl. intros [= E].
  destruct (to_int_printable a) as [A1 A2], (to_int_printable b) as [B1 B2].
  pose proof (NilZero.isi (Z.to_int a) A1 A2) as Ia.
  pose proof (NilZero.isi (Z.to_int b) B1 B2) as Ib.
  rewrite E, Ib in Ia. injection Ia as Ia.
  rewrite <- (DecimalZ.of_to a), <- (DecimalZ.of_to b). now rewrite Ia.
Qed.

(** X11: when both the accepting socket and the challenger are in a
    roster whose entries sit under their own ids, [accept-challenge] stores
    under the room id a fresh race (progress 0, boost 100, not drifting,
    unfinished, no winner) with the challenger as player 1 and the acceptor
    as player 2, each with the username of their lobby entry; both leave the
    roster, nobody else does, and no other room is touched. *)
Theorem acceptChallenge_creates_race (st : Server) (now nowCtor : Z)
    (socketId challengerId : string) (acceptor challenger : Lobby.Player) :
  rosterOk (players st) ->
  JsMap.get (players st) socketId = Some acceptor ->
  JsMap.get (players st) challengerId = Some challenger ->
  let o := acceptChallenge st now nowCtor socketId challengerId in
  JsMap.get (activeRaces (server o)) (raceIdAt now) =
    Some (mkRaceGame (raceIdAt now)
            (mkRacer challengerId 0 100 false (Lobby.username challenger))
            (mkRacer socketId 0 100 false (Lobby.username acceptor))
            nowCtor false None) /\
  JsMap.get (players (server o)) socketId = None /\
  JsMap.get (players (server o)) challengerId = None /\
  (forall other : string,
     other <> socketId -> other <> challengerId ->
     JsMap.get (players (server o)) other = JsMap.get (players st) other) /\
  (forall room : string,
     room <> raceIdAt now ->
     JsMap.get (activeRaces (server o)) room = JsMap.get (activeRaces st) room).
Proof.
  intros [D K] A C. cbv zeta.
  assert (Ia : Lobby.id acceptor = socketId).
  { rewrite Forall_forall in K. exact (K _ (get_In _ _ _ A)). }
  assert (Ic : Lobby.id challenger = challengerId).
  { rewrite Forall_forall in K. exact (K _ (get_In _ _ _ C)). }
  unfold acceptChallenge. rewrite A, C. simpl. rewrite Ia, Ic.
  split; [ | split; [ | split; [ | split ] ] ].
  - rewrite get_set_same. unfold newRaceGame, usernameOf. now rewrite A, C.
  - apply get_delete_same. now apply NoDup_delete.
  - destruct (string_dec socketId challengerId) as [E | N].
    + rewrite E. apply get_delete_same. now apply NoDup_delete.
    + rewrite get_delete_other by exact N. now apply get_delete_same.
  - intros other N1 N2.
    rewrite get_delete_other by congruence.
    apply get_delete_other. congruence.
  - intros room N. apply get_set_other. congruence.
Qed.

Lemma acceptChallenge_creates_race_witness :
  JsMap.get
    (activeRaces
       (server (acceptChallenge (state lobbyAB) t0 t0 "b" "a")))
    (raceIdAt t0) = Some raceAB /\
  JsMap.get
    (players (server (acceptChallenge (state lobbyAB) t0 t0 "b" "a"))) "a"
  = None.
Proof.
  assert (R : rosterOk (players (state lobbyAB))).
  { split.
    - repeat constructor; simpl; intuition discriminate.
    - repeat constructor. }
  pose proof (acceptChallenge_creates_race (state lobbyAB) t0 t0 "b" "a"
                (Lobby.mkPlayer "b" (Some "B")) (Lobby.mkPlayer "a" (Some "A"))
                R eq_refl eq_refl) as (G & _ & P & _).
  split; [ exact G | exact P ].
Defined.

(** X12: room ids made at different clock readings are different, so an
    [accept-challenge] handled at one reading leaves the race stored under
    the room id of any other reading as it is. *)
Theorem different_ticks_different_rooms (st : Server) (now nowCtor earlier : Z)
    (socketId challengerId : string) :
  earlier <> now ->
  raceIdAt earlier <> raceIdAt now /\
  JsMap.get
    (activeRaces (server (acceptChallenge st now nowCtor socketId challengerId)))
    (raceIdAt earlier)
  = JsMap.get (activeRaces st) (raceIdAt earlier).
Proof.
  intro N.
  assert (R : raceIdAt earlier <> raceIdAt now).
  { intro E. apply N. now apply raceIdAt_inj. }
  split; [ exact R | ].
  unfold acceptChallenge.
  destruct (JsMap.get (players st) socketId) as [acceptor | ];
    [ | reflexivity ].
  destruct (JsMap.get (players st) challengerId) as [challenger | ];
    [ | reflexivity ].
  simpl. apply get_set_other. congruence.
Qed.

Lemma different_ticks_different_rooms_witness :
  (t0 <> t0 + 1)%Z /\
  JsMap.get
    (activeRaces
       (server
          (acceptChallenge
             (state (step lobbyABCD (AcceptChallenge t0 t0 "b" "a")))
             (t0 + 1) (t0 + 1) "d" "c")))
    (raceIdAt t0)
  = JsMap.get
      (activeRaces (state (step lobbyABCD (AcceptChallenge t0 t0 "b" "a"))))
      (raceIdAt t0).
Proof.
  assert (N : (t0 <> t0 + 1)%Z) by (vm_compute; discriminate).
  split; [ exact N | ].
  exact (proj2 (different_ticks_different_rooms
                  (state (step lobbyABCD (AcceptChallenge t0 t0 "b" "a")))
                  (t0 + 1) (t0 + 1) t0 "d" "c" N)).
Defined.

(** ** player-action *)

Lemma In_get {V : Type} (m : JsMap.t V) (k : string) (v : V) :
  NoDup (keysOf m) -> In (k, v) m -> JsMap.get m k = Some v.
Proof.
  induction m as [ | [k' v'] rest IH]; simpl.
  - tauto.
  - intros D [E | I].
    + injection E as -> ->. now rewrite String.eqb_refl.
    + inversion D as [ | ? ? NI D' ]; subst.
      destruct (String.eqb_spec k' k) as [E | N].
      * subst k'. exfalso. apply NI. unfold keysOf.
        apply in_map_iff. now exists (k, v).
      * now apply IH.
Qed.

Lemma get_some_key {V : Type} (m : JsMap.t V) (k : string) (v : V) :
  JsMap.get m k = Some v -> In k (keysOf m).
Proof.
  intro G. unfold keysOf. apply in_map_iff. exists (k, v).
  split; [ reflexivity | now apply get_In ].
Qed.

(** X13: [player-action] never changes the roster or the set and order of
    room ids, and never touches another room.  For an unknown room id it
    does nothing at all; for a known one it stores the race as
    [handlePlayerAction] leaves it, sends one [game-update] with that state
    to the two racers, and sets the cleanup timer exactly when the call
    returned true. *)
Theorem playerAction_effect (st : Server) (socketId room action : string) :
  let o := playerAction st socketId room action in
  players (server o) = players st /\
  keysOf (activeRaces (server o)) = keysOf (activeRaces st) /\
  (forall other : string,
     other <> room ->
     JsMap.get (activeRaces (server o)) other =
     JsMap.get (activeRaces st) other) /\
  match JsMap.get (activeRaces st) room with
  | None => server o = st /\ emitted o = [] /\ scheduled o = None
  | Some race =>
      let r := handlePlayerAction race socketId action in
      JsMap.get (activeRaces (server o)) room = Some (fst r) /\
      emitted o =
        [ (To [id (player1 race); id (player2 race)],
           game_update (getGameState (fst r))) ] /\
      scheduled o =
        (if snd r then Some (mkTimer 5000 room (fst r)) else None)
  end.
Proof.
  cbv zeta. unfold playerAction.
  destruct (JsMap.get (activeRaces st) room) as [race | ] eqn:G.
  - pose proof (handlePlayerAction_identity race socketId action)
      as (_ & _ & I1 & I2 & _).
    destruct (handlePlayerAction race socketId action) as [race' fin].
    simpl in *. rewrite I1, I2.
    split; [ reflexivity | ].
    split; [ apply keys_set_present; now apply get_some_key with race | ].
    split; [ intros other N; apply get_set_other; congruence | ].
    split; [ apply get_set_same | auto ].
  - simpl. repeat split; reflexivity.
Qed.

(** ** The deferred cleanup *)

(** X14: when the cleanup timer of a room fires on a table with unique
    keys, no race is stored under that room id afterwards, whichever race
    was there, and no other room is touched; both racers of the timer's race
    are in the roster afterwards under their own ids, with the usernames the
    race carries, and no other roster entry is touched. *)
Theorem cleanup_effect (t : Timer) (st : Server) :
  NoDup (keysOf (activeRaces st)) ->
  let o := cleanup t st in
  let p1 := player1 (timerRace t) in
  let p2 := player2 (timerRace t) in
  JsMap.get (activeRaces (server o)) (timerRoomId t) = None /\
  (forall room : string,
     room <> timerRoomId t ->
     JsMap.get (activeRaces (server o)) room = JsMap.get (activeRaces st) room) /\
  JsMap.get (players (server o)) (id p2) =
    Some (Lobby.mkPlayer (id p2) (username p2)) /\
  (id p1 <> id p2 ->
   JsMap.get (players (server o)) (id p1) =
     Some (Lobby.mkPlayer (id p1) (username p1))) /\
  (forall other : string,
     other <> id p1 -> other <> id p2 ->
     JsMap.get (players (server o)) other = JsMap.get (players st) other).
Proof.
  intro D. cbv zeta. unfold cleanup. simpl.
  split; [ now apply get_delete_same | ].
  split; [ intros room N; apply get_delete_other; congruence | ].
  split; [ apply get_set_same | ].
  split.
  - intro N. rewrite get_set_other by congruence. apply get_set_same.
  - intros other N1 N2. rewrite get_set_other by congruence.
    apply get_set_other. congruence.
Qed.

Lemma cleanup_effect_witness :
  NoDup (keysOf (activeRaces (state finishedThenLeft))) /\
  JsMap.get
    (players
       (server (cleanup (mkTimer 5000 (raceIdAt t0) raceAB)
                  (state finishedThenLeft)))) "b"
  = Some (Lobby.mkPlayer "b" (Some "B")).
Proof.
  assert (D : NoDup (keysOf (activeRaces (state finishedThenLeft))))
    by (vm_compute; constructor).
  split; [ exact D | ].
  exact (proj1 (proj2 (proj2
           (cleanup_effect (mkTimer 5000 (raceIdAt t0) raceAB)
              (state finishedThenLeft) D)))).
Defined.

(** ** disconnect *)

Lemma findRaceOf_some (races : JsMap.t RaceGame) (socketId raceId : string)
    (race : RaceGame) :
  findRaceOf races socketId = Some (raceId, race) ->
  participates race socketId /\
  exists before after : JsMap.t RaceGame,
    races = (before ++ (raceId, race) :: after)%list /\
    Forall (fun kv => ~ participates (snd kv) socketId) before.
Proof.
  induction races as [ | [k g] rest IH]; simpl.
  - discriminate.
  - destruct (String.eqb_spec (id (player1 g)) socketId) as [E1 | N1]; simpl.
    + intros [= -> ->]. split; [ now left | ].
      exists [], rest. split; [ reflexivity | constructor ].
    + destruct (String.eqb_spec (id (player2 g)) socketId) as [E2 | N2].
      * intros [= -> ->]. split; [ now right | ].
        exists [], rest. split; [ reflexivity | constructor ].
      * intro H. destruct (IH H) as (P & before & after & -> & B).
        split; [ exact P | ].
        exists ((k, g) :: before), after. split; [ reflexivity | ].
        constructor; [ | exact B ]. unfold participates. simpl. tauto.
Qed.

Lemma findRaceOf_none (races : JsMap.t RaceGame) (socketId : string) :
  findRaceOf races socketId = None ->
  Forall (fun kv => ~ participates (snd kv) socketId) races.
Proof.
  induction races as [ | [k g] rest IH]; simpl.
  - constructor.
  - destruct (String.eqb_spec (id (player1 g)) socketId) as [E1 | N1]; simpl;
      [ discriminate | ].
    destruct (String.eqb_spec (id (player2 g)) socketId) as [E2 | N2];
      [ discriminate | ].
    intro H. constructor; [ | now apply IH ].
    unfold participates. simpl. tauto.
Qed.

Lemma length_delete {V : Type} (m : JsMap.t V) (k : string) :
  (length m <= S (length (JsMap.delete m k)))%nat.
Proof.
  induction m as [ | [k' v'] rest IH]; simpl.
  - lia.
  - destruct (String.eqb k' k); simpl; lia.
Qed.

(** X15: on maps with unique keys, [disconnect] leaves no roster entry for
    the socket and touches no other entry.  If no race has the socket as a
    racer, the table stays as it is and no [opponent-disconnected] is sent.
    Otherwise the first such race in table order is removed, and only that
    one; no other room is touched, and exactly one [opponent-disconnected]
    goes out, to a racer of that race who is not the socket unless both
    racers carry the same id. *)
Theorem disconnect_effect (st : Server) (socketId : string) :
  NoDup (keysOf (players st)) -> NoDup (keysOf (activeRaces st)) ->
  let o := disconnect st socketId in
  JsMap.get (players (server o)) socketId = None /\
  (forall other : string,
     other <> socketId ->
     JsMap.get (players (server o)) other = JsMap.get (players st) other) /\
  (length (activeRaces st) <= S (length (activeRaces (server o))))%nat /\
  match findRaceOf (activeRaces st) socketId with
  | None =>
      Forall (fun kv => ~ participates (snd kv) socketId) (activeRaces st) /\
      activeRaces (server o) = activeRaces st /\
      filter isOpponentDisconnected (emitted o) = []
  | Some (raceId, race) =>
      JsMap.get (activeRaces st) raceId = Some race /\
      participates race socketId /\
      (exists before after : JsMap.t RaceGame,
         activeRaces st = (before ++ (raceId, race) :: after)%list /\
         Forall (fun kv => ~ participates (snd kv) socketId) before) /\
      JsMap.get (activeRaces (server o)) raceId = None /\
      (forall room : string,
         room <> raceId ->
         JsMap.get (activeRaces (server o)) room =
         JsMap.get (activeRaces st) room) /\
      exists other : string,
        participates race other /\
        (id (player1 race) <> id (player2 race) -> other <> socketId) /\
        filter isOpponentDisconnected (emitted o) =
          [(To [other], opponent_disconnected)]
  end.
Proof.
  intros Dp Dr. cbv zeta. unfold disconnect.
  assert (R : let '(roster, out1) :=
                match JsMap.get (players st) socketId with
                | Some _ =>
                    (JsMap.delete (players st) socketId,
                     [(Everyone,
                       online_players
                         (JsMap.values (JsMap.delete (players st) socketId)))])
                | None => (players st, [])
                end in
              JsMap.get roster socketId = None /\
              (forall other : string,
                 other <> socketId ->
                 JsMap.get roster other = JsMap.get (players st) other) /\
              filter isOpponentDisconnected out1 = []).
  { destruct (JsMap.get (players st) socketId) eqn:G.
    - split; [ now apply get_delete_same | ].
      split; [ intros other N; apply get_delete_other; congruence | reflexivity ].
    - auto. }
  destruct (match JsMap.get (players st) socketId with
            | Some _ => _
            | None => _
            end) as [roster out1].
  destruct R as (R1 & R2 & R3).
  destruct (findRaceOf (activeRaces st) socketId) as [[raceId race] | ] eqn:F.
  - destruct (findRaceOf_some _ _ _ _ F) as (P & before & after & Eq & B).
    assert (I : In (raceId, race) (activeRaces st)).
    { rewrite Eq. apply in_or_app. right. now left. }
    simpl.
    split; [ exact R1 | ]. split; [ exact R2 | ].
    split; [ apply length_delete | ].
    split; [ now apply In_get | ].
    split; [ exact P | ].
    split; [ now exists before, after | ].
    split; [ now apply get_delete_same | ].
    split; [ intros room N; apply get_delete_other; congruence | ].
    exists (if String.eqb (id (player1 race)) socketId
            then id (player2 race) else id (player1 race)).
    split; [ | split ].
    + unfold participates.
      destruct (String.eqb (id (player1 race)) socketId); auto.
    + intro N.
      destruct (String.eqb_spec (id (player1 race)) socketId) as [E | N1];
        congruence.
    + rewrite filter_app, R3. reflexivity.
  - simpl. split; [ exact R1 | ]. split; [ exact R2 | ].
    split; [ lia | ].
    split; [ now apply findRaceOf_none | ].
    split; [ reflexivity | exact R3 ].
Qed.

Lemma disconnect_effect_witness :
  NoDup (keysOf (players (state racingAB))) /\
  NoDup (keysOf (activeRaces (state racingAB))) /\
  JsMap.get (activeRaces (server (disconnect (state racingAB) "b")))
    (raceIdAt t0) = None /\
  filter isOpponentDisconnected (emitted (disconnect (state racingAB) "b")) =
    [(To ["a"], opponent_disconnected)].
Proof.
  assert (Dp : NoDup (keysOf (players (state racingAB))))
    by (vm_compute; constructor).
  assert (Dr : NoDup (keysOf (activeRaces (state racingAB)))).
  { vm_compute. constructor; [ simpl; tauto | constructor ]. }
  split; [ exact Dp | split; [ exact Dr | ] ].
  pose proof (proj2 (proj2 (proj2
                (disconnect_effect (state racingAB) "b" Dp Dr)))) as H.
  split; [ exact (proj1 (proj2 (proj2 (proj2 H)))) | reflexivity ].
Defined.

(** * What every run of the event loop keeps *)

Lemma values_ids (roster : JsMap.t Lobby.Player) :
  Forall (fun kv => Lobby.id (snd kv) = fst kv) roster ->
  map Lobby.id (JsMap.values roster) = keysOf roster.
Proof.
  induction 1 as [ | [k e] rest H _ IH]; simpl.
  - reflexivity.
  - simpl in H. now rewrite H, IH.
Qed.

Lemma roster_message_ok (roster : JsMap.t Lobby.Player) :
  rosterOk roster ->
  Forall (fun kv => named (Lobby.username (snd kv))) roster ->
  messageOk (Everyone, online_players (JsMap.values roster)).
Proof.
  intros [D K] N. unfold messageOk. simpl.
  split; [ reflexivity | ]. split.
  - now rewrite values_ids.
  - unfold JsMap.values. apply Forall_map. exact N.
Qed.

Lemma usernameOrDefault_nonempty (username : option string) (socketId : string) :
  usernameOrDefault username socketId <> "".
Proof.
  unfold usernameOrDefault. destruct username as [u | ]; [ | discriminate ].
  destruct (String.eqb_spec u ""); [ discriminate | assumption ].
Qed.

Lemma fresh_sound (roster : JsMap.t Lobby.Player) (now : Z)
    (room player1Id player2Id : string) :
  raceSound (newRaceGame roster now room player1Id player2Id).
Proof.
  unfold raceSound, boostInRange, atLine. simpl.
  split; [ repeat split; lra | ].
  split; [ | tauto ].
  split; [ discriminate | ].
  intros [L | L]; exfalso; revert L; apply Qlt_not_le; reflexivity.
Qed.

Lemma call_sound (race : RaceGame) (playerId action : string) :
  raceSound race -> raceSound (fst (handlePlayerAction race playerId action)).
Proof.
  intros (R & L & W). split; [ | split ].
  - now apply handlePlayerAction_in_range.
  - now apply line_step.
  - now apply winner_none_step.
Qed.

Lemma call_named (race : RaceGame) (playerId action : string) :
  racersNamed race ->
  racersNamed (fst (handlePlayerAction race playerId action)).
Proof.
  unfold racersNamed.
  destruct (handlePlayerAction_identity race playerId action)
    as (_ & _ & _ & _ & -> & ->). auto.
Qed.

Lemma joinLobby_ok (st : Server) (socketId : string) (username : option string) :
  serverOk st -> outcomeOk (joinLobby st socketId username).
Proof.
  intros ([[D K] T] & N & R). unfold joinLobby.
  set (entry := Lobby.mkPlayer socketId (Some (usernameOrDefault username socketId))).
  assert (Ro : rosterOk (JsMap.set (players st) socketId entry)).
  { split; [ now apply NoDup_set | now apply Forall_set ]. }
  assert (Na : Forall (fun kv => named (Lobby.username (snd kv)))
                 (JsMap.set (players st) socketId entry)).
  { apply Forall_set; [ exact N | ]. simpl. eexists. split; [ reflexivity | ].
    apply usernameOrDefault_nonempty. }
  split; [ | split ].
  - simpl. split; [ split; [ exact Ro | exact T ] | split; [ exact Na | exact R ] ].
  - simpl. constructor; [ now apply roster_message_ok | constructor ].
  - simpl. discriminate.
Qed.

Lemma acceptChallenge_ok (st : Server) (now nowCtor : Z)
    (socketId challengerId : string) :
  serverOk st -> outcomeOk (acceptChallenge st now nowCtor socketId challengerId).
Proof.
  intros ([[D K] [Dt Kt]] & N & R). unfold acceptChallenge.
  destruct (JsMap.get (players st) socketId) as [acceptor | ] eqn:A.
  2:{ split; [ | split ]; simpl.
      - split; [ split; [ split | split ] | split ]; assumption.
      - constructor; [ reflexivity | constructor ].
      - discriminate. }
  destruct (JsMap.get (players st) challengerId) as [challenger | ] eqn:C.
  2:{ split; [ | split ]; simpl.
      - split; [ split; [ split | split ] | split ]; assumption.
      - constructor; [ reflexivity | constructor ].
      - discriminate. }
  pose proof (get_In _ _ _ A) as IA. pose proof (get_In _ _ _ C) as IC.
  assert (Ia : Lobby.id acceptor = socketId).
  { rewrite Forall_forall in K. exact (K _ IA). }
  assert (Ic : Lobby.id challenger = challengerId).
  { rewrite Forall_forall in K. exact (K _ IC). }
  assert (Na : named (Lobby.username acceptor)).
  { rewrite Forall_forall in N. exact (N _ IA). }
  assert (Nc : named (Lobby.username challenger)).
  { rewrite Forall_forall in N. exact (N _ IC). }
  set (race := newRaceGame (players st) nowCtor (raceIdAt now)
                 (Lobby.id challenger) (Lobby.id acceptor)).
  assert (Rn : racersNamed race).
  { unfold racersNamed, race, newRaceGame, usernameOf. simpl.
    rewrite Ia, Ic, A, C. auto. }
  set (roster := JsMap.delete (JsMap.delete (players st) (Lobby.id challenger))
                   (Lobby.id acceptor)).
  assert (Ro : rosterOk roster).
  { split; [ now apply NoDup_delete, NoDup_delete
           | now apply Forall_delete, Forall_delete ]. }
  assert (Nr : Forall (fun kv => named (Lobby.username (snd kv))) roster)
    by now apply Forall_delete, Forall_delete.
  split; [ | split ]; simpl.
  - split; [ split; [ exact Ro | split ] | split; [ exact Nr | ] ].
    + now apply NoDup_set.
    + now apply Forall_set.
    + apply Forall_set; [ exact R | ]. split; [ apply fresh_sound | exact Rn ].
  - constructor.
    + unfold messageOk. simpl. split; [ reflexivity | exact Rn ].
    + constructor; [ now apply roster_message_ok | constructor ].
  - discriminate.
Qed.

Lemma playerAction_ok (st : Server) (socketId room action : string) :
  serverOk st -> outcomeOk (playerAction st socketId room action).
Proof.
  intros ([Ro [Dt Kt]] & N & R). unfold playerAction.
  destruct (JsMap.get (activeRaces st) room) as [race | ] eqn:G.
  2:{ split; [ | split ]; simpl.
      - split; [ split; [ exact Ro | split ] | split ]; assumption.
      - constructor.
      - discriminate. }
  pose proof (get_In _ _ _ G) as I.
  assert (Kr : roomId race = room).
  { rewrite Forall_forall in Kt. exact (Kt _ I). }
  assert (Sr : raceSound race /\ racersNamed race).
  { rewrite Forall_forall in R. exact (R _ I). }
  destruct Sr as [Sr Nr].
  pose proof (call_sound race socketId action Sr) as S'.
  pose proof (call_named race socketId action Nr) as N'.
  pose proof (handlePlayerAction_identity race socketId action)
    as (Room & _).
  pose proof (handlePlayerAction_finish race socketId action) as (Ret & Fin & _).
  destruct (handlePlayerAction race socketId action) as [race' fin].
  simpl in S', N', Room, Ret, Fin.
  split; [ | split ]; simpl.
  - split; [ split; [ exact Ro | split ] | split; [ exact N | ] ].
    + now apply NoDup_set.
    + apply Forall_set; [ exact Kt | ]. simpl. congruence.
    + apply Forall_set; [ exact R | ]. simpl. auto.
  - constructor; [ | constructor ].
    unfold messageOk. simpl. split; [ reflexivity | ].
    destruct S' as (B & _ & W). split; [ exact B | exact W ].
  - destruct fin; [ | discriminate ].
    intros t [= <-]. unfold timerOk. simpl.
    assert (F : finished race' = true).
    { rewrite Fin, <- Ret. apply orb_true_r. }
    split; [ congruence | ]. split; [ exact F | ]. split; [ | exact N' ].
    destruct S' as (_ & _ & W). intro E. apply W in E. congruence.
Qed.

Lemma cleanup_ok (t : Timer) (st : Server) :
  timerOk t -> serverOk st -> outcomeOk (cleanup t st).
Proof.
  intros (_ & _ & _ & N1 & N2) ([[D K] [Dt Kt]] & N & R). unfold cleanup.
  set (e1 := Lobby.mkPlayer (id (player1 (timerRace t)))
               (username (player1 (timerRace t)))).
  set (e2 := Lobby.mkPlayer (id (player2 (timerRace t)))
               (username (player2 (timerRace t)))).
  set (roster := JsMap.set (JsMap.set (players st) (id (player1 (timerRace t))) e1)
                   (id (player2 (timerRace t))) e2).
  assert (Ro : rosterOk roster).
  { split; [ now apply NoDup_set, NoDup_set | ].
    apply Forall_set; [ now apply Forall_set | reflexivity ]. }
  assert (Nr : Forall (fun kv => named (Lobby.username (snd kv))) roster).
  { apply Forall_set; [ now apply Forall_set | exact N2 ]. }
  split; [ | split ]; simpl.
  - split; [ split; [ exact Ro | split ] | split; [ exact Nr | ] ].
    + now apply NoDup_delete.
    + now apply Forall_delete.
    + now apply Forall_delete.
  - constructor; [ now apply roster_message_ok | constructor ].
  - discriminate.
Qed.

Lemma disconnect_ok (st : Server) (socketId : string) :
  serverOk st -> outcomeOk (disconnect st socketId).
Proof.
  intros ([[D K] [Dt Kt]] & N & R). unfold disconnect.
  assert (P : let '(roster, out1) :=
                match JsMap.get (players st) socketId with
                | Some _ =>
                    (JsMap.delete (players st) socketId,
                     [(Everyone,
                       online_players
                         (JsMap.values (JsMap.delete (players st) socketId)))])
                | None => (players st, [])
                end in
              rosterOk roster /\
              Forall (fun kv => named (Lobby.username (snd kv))) roster /\
              Forall messageOk out1).
  { destruct (JsMap.get (players st) socketId).
    - assert (Ro : rosterOk (JsMap.delete (players st) socketId)).
      { split; [ now apply NoDup_delete | now apply Forall_delete ]. }
      assert (Nr : Forall (fun kv => named (Lobby.username (snd kv)))
                     (JsMap.delete (players st) socketId))
        by now apply Forall_delete.
      split; [ exact Ro | split; [ exact Nr | ] ].
      constructor; [ now apply roster_message_ok | constructor ].
    - split; [ now split | split; [ exact N | constructor ] ]. }
  destruct (match JsMap.get (players st) socketId with
            | Some _ => _
            | None => _
            end) as [roster out1].
  destruct P as (Ro & Nr & M).
  destruct (findRaceOf (activeRaces st) socketId) as [[raceId race] | ].
  - split; [ | split ]; simpl.
    + split; [ split; [ exact Ro | split ] | split; [ exact Nr | ] ].
      * now apply NoDup_delete.
      * now apply Forall_delete.
      * now apply Forall_delete.
    + apply Forall_app. split; [ exact M | ].
      constructor; [ | constructor ]. unfold messageOk. simpl. eauto.
    + discriminate.
  - split; [ | split ]; simpl.
    + split; [ split; [ exact Ro | split ] | split ]; assumption.
    + exact M.
    + discriminate.
Qed.

Lemma absorb_ok (w : World) (timers : list Timer) (o : Outcome) :
  Forall timerOk timers -> Forall messageOk (outbox w) -> outcomeOk o ->
  worldOk (absorb w timers o).
Proof.
  intros T M (S & E & Sch). unfold worldOk, absorb. simpl.
  split; [ exact S | split ].
  - apply Forall_app. split; [ exact T | ].
    destruct (scheduled o) as [t | ]; [ | constructor ].
    constructor; [ now apply Sch | constructor ].
  - apply Forall_app. now split.
Qed.

Lemma step_ok (w : World) (e : Event) : worldOk w -> worldOk (step w e).
Proof.
  intros (S & T & M). destruct e; simpl.
  - apply absorb_ok; auto using joinLobby_ok.
  - apply absorb_ok; auto using acceptChallenge_ok.
  - apply absorb_ok; auto using playerAction_ok.
  - apply absorb_ok; auto using disconnect_ok.
  - destruct (pending w) as [ | t later] eqn:P.
    + unfold worldOk. rewrite P. auto.
    + inversion T as [ | ? ? Ht Hl ]; subst.
      apply absorb_ok; auto using cleanup_ok.
Qed.

Lemma reachable_ok (w : World) : reachable w -> worldOk w.
Proof.
  intros [es ->].
  assert (G : forall w0 : World, worldOk w0 -> worldOk (steps w0 es)).
  { induction es as [ | e es IH]; intros w0 H.
    - exact H.
    - simpl. apply IH. now apply step_ok. }
  apply G. unfold worldOk, serverOk, wellFormed, rosterOk, tableOk. simpl.
  repeat split; constructor.
Qed.

(** X16: between any two handlers of any run of the event loop, each map
    has every key once, every lobby entry sits under its own id and every
    race under its own room id. *)
Theorem reachable_well_formed (w : World) :
  reachable w -> wellFormed (state w).
Proof.
  intro R. exact (proj1 (proj1 (reachable_ok w R))).
Qed.

(** X17: in every run of the event loop, every lobby entry and every racer
    of every stored race has a username that is there and not empty, so the
    [?.username] of the constructor never yields [undefined]. *)
Theorem reachable_named (w : World) :
  reachable w ->
  Forall (fun kv => named (Lobby.username (snd kv))) (players (state w)) /\
  Forall (fun kv => racersNamed (snd kv)) (activeRaces (state w)).
Proof.
  intro R. destruct (reachable_ok w R) as ((_ & N & S) & _).
  split; [ exact N | ].
  apply Forall_impl with (2 := S). intros kv H. exact (proj2 H).
Qed.

(** X18: in every run of the event loop, every stored race has both boosts
    in [0, 100], is finished exactly when a racer has progress 1000 or more,
    and has a null winner exactly while it is unfinished. *)
Theorem reachable_races_sound (w : World) :
  reachable w ->
  Forall (fun kv => raceSound (snd kv)) (activeRaces (state w)).
Proof.
  intro R. destruct (reachable_ok w R) as ((_ & _ & S) & _).
  apply Forall_impl with (2 := S). intros kv H. exact (proj1 H).
Qed.

(** X19: in every run of the event loop, every pending cleanup timer holds
    a finished race with a winner, captured under that race's own room
    id. *)
Theorem reachable_timers_ok (w : World) :
  reachable w -> Forall timerOk (pending w).
Proof.
  intro R. exact (proj1 (proj2 (reachable_ok w R))).
Qed.

(** X20: in every run of the event loop, every [online-players] broadcast
    goes to everyone and lists each id once with a non-empty username, every
    [race-start] and [game-update] goes to the two racers of its race, every
    [game-update] carries boosts in [0, 100] and a winner exactly when it
    says finished, an [error] goes to the sender alone and an
    [opponent-disconnected] to a single socket. *)
Theorem reachable_messages_ok (w : World) :
  reachable w -> Forall messageOk (outbox w).
Proof.
  intro R. exact (proj2 (proj2 (reachable_ok w R))).
Qed.

Lemma finishedThenLeft_reachable : reachable finishedThenLeft.
Proof.
  exists ([JoinLobby "a" (Some "A"); JoinLobby "b" (Some "B");
           AcceptChallenge t0 t0 "b" "a"]
          ++ repeat (PlayerAction "a" (raceIdAt t0) "accelerate") 500
          ++ [Disconnect "b"])%list.
  vm_compute. reflexivity.
Defined.

Lemma racingAB_reachable : reachable racingAB.
Proof.
  exists [JoinLobby "a" (Some "A"); JoinLobby "b" (Some "B");
          AcceptChallenge t0 t0 "b" "a"].
  reflexivity.
Defined.

Lemma reachable_well_formed_witness :
  reachable racingAB /\ wellFormed (state racingAB).
Proof.
  split; [ exact racingAB_reachable | ].
  exact (reachable_well_formed racingAB racingAB_reachable).
Defined.

Lemma reachable_named_witness :
  reachable racingAB /\
  Forall (fun kv => racersNamed (snd kv)) (activeRaces (state racingAB)).
Proof.
  split; [ exact racingAB_reachable | ].
  exact (proj2 (reachable_named racingAB racingAB_reachable)).
Defined.

Lemma reachable_races_sound_witness :
  reachable racingAB /\
  Forall (fun kv => raceSound (snd kv)) (activeRaces (state racingAB)).
Proof.
  split; [ exact racingAB_reachable | ].
  exact (reachable_races_sound racingAB racingAB_reachable).
Defined.

Lemma reachable_timers_ok_witness :
  reachable finishedThenLeft /\ Forall timerOk (pending finishedThenLeft).
Proof.
  split; [ exact finishedThenLeft_reachable | ].
  exact (reachable_timers_ok finishedThenLeft finishedThenLeft_reachable).
Defined.

Lemma reachable_messages_ok_witness :
  reachable finishedThenLeft /\ Forall messageOk (outbox finishedThenLeft).
Proof.
  split; [ exact finishedThenLeft_reachable | ].
  exact (reachable_messages_ok finishedThenLeft finishedThenLeft_reachable).
Defined.

(** * Drifting *)

Lemma drifting_step (action : string) (p : Racer) :
  isDrifting p = true -> action <> "drift-end" ->
  isDrifting (regenerate (switchAction action p)) = true /\
  boost (regenerate (switchAction action p)) <= boost p.
Proof.
  intros D N.
  destruct (regenerate_fields (switchAction action p)) as (_ & -> & _ & _ & ->).
  assert (S : isDrifting (switchAction action p) = true /\
              boost (switchAction action p) <= boost p).
  { unfold switchAction.
    destruct (String.eqb action "accelerate"); [ simpl; split; [ exact D | lra ] | ].
    destruct (String.eqb action "boost").
    { destruct (Qle_bool 20 (boost p)); simpl; split; try exact D; lra. }
    destruct (String.eqb action "drift-start"); [ simpl; split; [ reflexivity | lra ] | ].
    destruct (String.eqb_spec action "drift-end"); [ contradiction | ].
    split; [ exact D | lra ]. }
  destruct S as [-> S]. auto.
Qed.

Lemma handlePlayerAction_isFirst (this : RaceGame) (playerId action other : string) :
  isFirst (fst (handlePlayerAction this playerId action)) other =
  isFirst this other.
Proof.
  unfold isFirst.
  now rewrite (proj1 (proj2 (proj2
        (handlePlayerAction_identity this playerId action)))).
Qed.

(** X21: a racer who is drifting stays drifting and never gains boost along
    any sequence of calls, from whichever callers and however many, in which
    no call that resolves to that racer is a 'drift-end'.  (A call resolves
    to player 1 when its [playerId] is [player1.id] and to player 2
    otherwise.) *)
Theorem drifting_never_regenerates (this : RaceGame) (playerId : string)
    (calls : list Call) :
  isDrifting (resolve this playerId) = true ->
  Forall
    (fun c =>
       isFirst this (fst c) = isFirst this playerId -> snd c <> "drift-end")
    calls ->
  let this' := run this calls in
  isDrifting (resolve this' playerId) = true /\
  boost (resolve this' playerId) <= boost (resolve this playerId).
Proof.
  intros D N. revert this D N.
  induction calls as [ | [caller action] rest IH]; intros this D N.
  - simpl. split; [ exact D | lra ].
  - cbv zeta. rewrite run_cons.
    inversion N as [ | ? ? Nc Nr ]; subst. simpl in Nc.
    set (this1 := fst (handlePlayerAction this caller action)).
    assert (S1 : isDrifting (resolve this1 playerId) = true /\
                 boost (resolve this1 playerId) <= boost (resolve this playerId)).
    { destruct (handlePlayerAction_players this caller action) as (_ & T & F).
      fold this1 in T, F.
      unfold resolve in *.
      assert (I : isFirst this1 playerId = isFirst this playerId)
        by apply handlePlayerAction_isFirst.
      rewrite I. clear I.
      destruct (isFirst this caller) eqn:Ec;
        destruct (isFirst this playerId) eqn:Ep.
      - destruct (T eq_refl) as [-> _]. apply drifting_step; auto.
      - destruct (T eq_refl) as [_ ->]. split; [ exact D | lra ].
      - destruct (F eq_refl) as [-> _]. split; [ exact D | lra ].
      - destruct (F eq_refl) as [_ ->]. apply drifting_step; auto. }
    destruct S1 as [D1 B1].
    assert (N1 : Forall
                   (fun c =>
                      isFirst this1 (fst c) = isFirst this1 playerId ->
                      snd c <> "drift-end") rest).
    { apply Forall_impl with (2 := Nr). intros c H.
      unfold this1. now rewrite !handlePlayerAction_isFirst. }
    destruct (IH this1 D1 N1) as [D2 B2]. cbv zeta in D2, B2.
    split; [ exact D2 | lra ].
Qed.

Lemma drifting_never_regenerates_witness :
  isDrifting (resolve (run raceAB [("b", "drift-start")]) "b") = true /\
  boost
    (resolve
       (run (run raceAB [("b", "drift-start")])
          [("a", "drift-end"); ("b", "accelerate"); ("a", "honk");
           ("b", "boost")]) "b")
  <= boost (resolve (run raceAB [("b", "drift-start")]) "b").
Proof.
  assert (D : isDrifting (resolve (run raceAB [("b", "drift-start")]) "b") = true)
    by reflexivity.
  assert (N : Forall
                (fun c : Call =>
                   isFirst (run raceAB [("b", "drift-start")]) (fst c) =
                   isFirst (run raceAB [("b", "drift-start")]) "b" ->
                   snd c <> "drift-end")
                [("a", "drift-end"); ("b", "accelerate"); ("a", "honk");
                 ("b", "boost")]).
  { repeat constructor; simpl; intro H; discriminate. }
  split; [ exact D | ].
  exact (proj2 (drifting_never_regenerates (run raceAB [("b", "drift-start")])
                  "b" _ D N)).
Defined.

(** * Actions outside the four known ones *)

(** C10 (as amended): for a participating player, an action string that is
    none of the four known ones runs no branch of the switch, yet the call
    is not a no-op: it adds the passive 0.5 boost (capped at 100) when the
    player is not drifting, and it runs the win check, returning
    [progress >= 1000 && !finished].  On a race reached from construction
    by calls of the method that check never fires for such a call: it
    returns false and leaves [finished] and [winner] as they are. *)
Theorem unknown_action (this : RaceGame) (playerId action : string) :
  participates this playerId -> ~ knownAction action ->
  let p := resolve this playerId in
  let r := handlePlayerAction this playerId action in
  let p' := resolve (fst r) playerId in
  id p = playerId /\
  switchAction action p = p /\
  progress p' = progress p /\ isDrifting p' = isDrifting p /\
  boost p' = (if isDrifting p then boost p else Qmin 100 (boost p + 0.5)) /\
  (isDrifting p = false -> boost p < 100 -> boost p < boost p') /\
  snd r = Qle_bool 1000 (progress p) && negb (finished this) /\
  (forall (roster : JsMap.t Lobby.Player) (now : Z)
          (room player1Id player2Id : string) (calls : list Call),
     this = run (newRaceGame roster now room player1Id player2Id) calls ->
     snd r = false /\
     finished (fst r) = finished this /\ winner (fst r) = winner this).
Proof.
  intros P U p r p'.
  split; [ exact (resolve_participant this playerId P) | ].
  assert (Ep : p' = regenerate p).
  { subst p' r. rewrite resolve_after. fold p. now rewrite unknown_switch. }
  pose proof (handlePlayerAction_finish this playerId action) as F.
  cbv zeta in F. fold p in F. rewrite (unknown_switch action p U) in F.
  fold r in F.
  assert (Eprog : progress (regenerate p) = progress p).
  { unfold regenerate. destruct (isDrifting p); reflexivity. }
  rewrite Eprog in F. destruct F as (F1 & F2 & F3).
  split; [ now apply unknown_switch | ].
  rewrite Ep.
  split; [ exact Eprog | ].
  split; [ unfold regenerate; destruct (isDrifting p) eqn:E; simpl; auto | ].
  split; [ unfold regenerate; destruct (isDrifting p); reflexivity | ].
  split.
  { intros D L. unfold regenerate. rewrite D. simpl.
    apply Q.min_glb_lt; [ exact L | lra ]. }
  split; [ exact F1 | ].
  intros roster now room player1Id player2Id calls E.
  pose proof (fresh_line roster now room player1Id player2Id calls) as L.
  cbv zeta in L. rewrite <- E in L.
  assert (W : Qle_bool 1000 (progress p) && negb (finished this) = false).
  { destruct (finished this) eqn:Fi; [ apply andb_false_r | ].
    destruct (Qle_bool 1000 (progress p)) eqn:Q; [ | reflexivity ].
    apply Qle_bool_iff in Q. exfalso.
    assert (A : atLine (player1 this) \/ atLine (player2 this)).
    { subst p. unfold resolve in Q. unfold atLine.
      destruct (isFirst this playerId); auto. }
    apply L in A. discriminate A. }
  rewrite W in F1, F2, F3. rewrite orb_false_r in F2. auto.
Qed.

Lemma unknown_action_witness :
  participates (run raceAB [("a", "boost")]) "a" /\ ~ knownAction "honk" /\
  snd (handlePlayerAction (run raceAB [("a", "boost")]) "a" "honk") = false /\
  boost (resolve (run raceAB [("a", "boost")]) "a") <
  boost (resolve
           (fst (handlePlayerAction (run raceAB [("a", "boost")]) "a" "honk"))
           "a").
Proof.
  assert (P : participates (run raceAB [("a", "boost")]) "a")
    by (left; reflexivity).
  assert (U : ~ knownAction "honk").
  { unfold knownAction. intros [H | [H | [H | H]]]; discriminate H. }
  pose proof (unknown_action (run raceAB [("a", "boost")]) "a" "honk" P U)
    as (_ & _ & _ & _ & _ & B & _ & R).
  split; [ exact P | split; [ exact U | split ] ].
  - exact (proj1 (R (players (state lobbyAB)) t0 (raceIdAt t0) "a" "b"
                    [("a", "boost")] eq_refl)).
  - apply B; [ reflexivity | vm_compute; reflexivity ].
Defined.

(** C10, the claim as stated fails: after 500 'accelerate' calls by "a" the
    progress of "a" is 1000, and an unknown action by "a" still returns
    false; and there is no race reached from construction on which a call
    with an unknown action returns true. *)
Lemma unknown_action_never_finishes :
  (1000 <= progress (resolve (run raceAB (repeat ("a", "accelerate") 500)) "a") /\
   snd (handlePlayerAction (run raceAB (repeat ("a", "accelerate") 500))
          "a" "honk") = false) /\
  ~ (exists (roster : JsMap.t Lobby.Player) (now : Z)
            (room player1Id player2Id : string) (calls : list Call)
            (playerId action : string),
       ~ knownAction action /\
       snd (handlePlayerAction
              (run (newRaceGame roster now room player1Id player2Id) calls)
              playerId action) = true).
Proof.
  split.
  - split; [ vm_compute; discriminate | vm_compute; reflexivity ].
  - intros (roster & now & room & player1Id & player2Id & calls
            & playerId & action & U & T).
    set (this := run (newRaceGame roster now room player1Id player2Id) calls)
      in T.
    pose proof (fresh_line roster now room player1Id player2Id calls) as L.
    cbv zeta in L. fold this in L.
    pose proof (handlePlayerAction_finish this playerId action) as (F1 & _).
    rewrite (unknown_switch action _ U) in F1.
    destruct (regenerate_fields (resolve this playerId)) as (Rp & _).
    rewrite Rp, T in F1. symmetry in F1. apply andb_true_iff in F1.
    destruct F1 as [Q Fi]. apply Qle_bool_iff in Q.
    assert (A : atLine (player1 this) \/ atLine (player2 this)).
    { unfold resolve in Q. unfold atLine.
      destruct (isFirst this playerId); auto. }
    apply L in A. rewrite A in Fi. discriminate Fi.
Qed.
